(** * 2048-scoreproof backend: the score leaderboard service

    A shallow embedding of [2048-scoreproof-backend/src/index.ts]: the two
    SQLite tables, the statements the service runs against them, [initDb],
    and the three Express routes, followed by the properties the
    specification states about them.

    Modelling choices, all visible in the definitions below:
    - the database is a pair of optional tables (a table that was never
      created is [None]; every statement on it throws [no such table]);
      [scores] maps the INTEGER PRIMARY KEY [score] to [count], [proofs]
      maps the TEXT PRIMARY KEY [proofId] to the rest of the row;
    - SQLite integers are [Z]; a count would need 2^63 accepted proofs to
      leave the 64-bit range, which is not modelled;
    - a JavaScript [number] is [NaN], an integer, or a double that is no
      integer (an infinity or a value with a fractional part); the key of
      [scores] takes the integers SQLite converts to a 64-bit INTEGER and
      refuses every other number with [datatype mismatch], while the
      [score] column of [proofs] stores any number but [NaN];
    - a handler is a state-and-exception computation over the database;
      writes made before a throw stay (the routes open no transaction),
      except inside [transaction], which rolls back;
    - [JSON.parse], [Buffer.toString], [String.trim] and the imported
      [verify2048Proof] are the members of the class [Externals];
    - the clock behind [DEFAULT CURRENT_TIMESTAMP] is an argument of the
      POST request;
    - requests are served one after the other: the only [await] of the
      POST route comes before its first statement on the database, and
      the statements of better-sqlite3 are synchronous. *)

From stdpp Require Import gmap strings list fin_maps sorting.

Open Scope Z_scope.

(** ** Data model *)

(** [interface ScoreCount { score: number; count: number }] *)
Record ScoreCount := { score : Z; count : Z }.

Global Instance ScoreCount_eq_dec : EqDecision ScoreCount.
Proof. solve_decision. Defined.

Definition initialScores : list ScoreCount :=
  [ {| score := 131072; count := 0 |};
    {| score := 65536; count := 0 |};
    {| score := 32768; count := 0 |};
    {| score := 16384; count := 0 |};
    {| score := 8192; count := 0 |};
    {| score := 4096; count := 0 |};
    {| score := 2048; count := 0 |};
    {| score := 1024; count := 0 |};
    {| score := 512; count := 0 |};
    {| score := 256; count := 0 |};
    {| score := 128; count := 0 |};
    {| score := 64; count := 0 |};
    {| score := 32; count := 0 |};
    {| score := 16; count := 0 |};
    {| score := 8; count := 0 |};
    {| score := 4; count := 0 |};
    {| score := 2; count := 0 |} ].

(** A double that is no integer: an infinity, or a finite value strictly
    between [whole] and [whole + 1], told from the others there by [part]. *)
Inductive non_integer :=
| Infinity (negative : bool)
| Fraction (whole : Z) (part : positive).

(** A JavaScript number, as far as the service looks at it. *)
Inductive number := NaN | Num (z : Z) | NonInteger (x : non_integer).

(** An integer is written for the number it is. *)
Coercion Num : Z >-> number.

Global Instance non_integer_eq_dec : EqDecision non_integer.
Proof. solve_decision. Defined.

Global Instance number_eq_dec : EqDecision number.
Proof. solve_decision. Defined.

Definition isNaN (n : number) : bool :=
  match n with NaN => true | _ => false end.

(** [n == z] for a number [n] and an integer literal [z]. *)
Definition number_eq (n : number) (z : Z) : bool :=
  match n with Num k => bool_decide (k = z) | _ => false end.

(** The integers SQLite keeps as a 64-bit INTEGER when it is handed a
    double: those that convert back and forth and are neither the
    smallest nor the largest 64-bit integer. *)
Definition sqlite_integer (z : Z) : Prop := - 2 ^ 63 < z < 2 ^ 63 - 1.

Global Instance sqlite_integer_dec z : Decision (sqlite_integer z).
Proof. unfold sqlite_integer. apply _. Defined.

(** The rowid a bound number stands for, if any: [NaN] is bound as NULL,
    and a double that is no such integer stays a REAL. *)
Definition rowid_of (n : number) : option Z :=
  match n with
  | Num z => if bool_decide (sqlite_integer z) then Some z else None
  | _ => None
  end.

(** The columns of a [proofs] row other than its key [proofId]. *)
Record ProofRecord := { proof : string; proof_score : number; created_at : Z }.

(** A [proofs] row as [SELECT proofId, proof, score, created_at] returns it. *)
Record ProofRow := { proofId : string; record : ProofRecord }.

Record Database := {
  scores : option (gmap Z Z);
  proofs : option (gmap string ProofRecord)
}.

(** [new Database('scores.db')] on a file that does not exist yet. *)
Definition new_Database : Database := {| scores := None; proofs := None |}.

(** Truthiness of a value that is a string, [null] or [undefined]. *)
Definition truthy (s : option string) : bool :=
  match s with
  | None => false
  | Some s => negb (bool_decide (s = EmptyString))
  end.

(** ** Exceptions and the handler monad *)

Inductive Exception :=
| SqliteError (message : string)
| SyntaxError
| Rejection (reason : string).

Inductive Completion (A : Type) :=
| Ok (a : A)
| Throw (e : Exception).
Arguments Ok {A} a.
Arguments Throw {A} e.

Definition M (A : Type) : Type := Database → Completion A * Database.

Global Instance M_ret : MRet M := λ A a db, (Ok a, db).

Global Instance M_bind : MBind M := λ A B f m db,
  match m db with
  | (Ok a, db') => f a db'
  | (Throw e, db') => (Throw e, db')
  end.

Definition throw {A} (e : Exception) : M A := λ db, (Throw e, db).

(** [await p] / a call that may throw: the database is not touched. *)
Definition lift {A} (c : Completion A) : M A := λ db, (c, db).

(** [try { body } catch (error) { handler }] where both end by sending a
    response. *)
Definition try_catch {A} (body : M A) (handler : Exception → A)
  : Database → A * Database := λ db,
  match body db with
  | (Ok a, db') => (a, db')
  | (Throw e, db') => (handler e, db')
  end.

(** [db.transaction(fn)]: commit when [fn] returns, roll back and rethrow
    when it throws. *)
Definition transaction {A} (fn : M A) : M A := λ db,
  match fn db with
  | (Ok a, db') => (Ok a, db')
  | (Throw e, _) => (Throw e, db)
  end.

(** [for (const item of items) { f(item) }] *)
Fixpoint for_each {A} (items : list A) (f : A → M unit) : M unit :=
  match items with
  | [] => mret ()
  | item :: rest => _ ← f item; for_each rest f
  end.

(** ** The SQL statements *)

Definition no_such_table (name : string) : Exception :=
  SqliteError ("no such table: " +:+ name).

Definition unique_failed (column : string) : Exception :=
  SqliteError ("UNIQUE constraint failed: " +:+ column).

Definition not_null_failed (column : string) : Exception :=
  SqliteError ("NOT NULL constraint failed: " +:+ column).

Definition datatype_mismatch : Exception := SqliteError "datatype mismatch".

Definition with_scores (t : gmap Z Z) (db : Database) : Database :=
  {| scores := Some t; proofs := proofs db |}.

Definition with_proofs (t : gmap string ProofRecord) (db : Database) : Database :=
  {| scores := scores db; proofs := Some t |}.

(** [CREATE TABLE IF NOT EXISTS scores (score INTEGER PRIMARY KEY, count INTEGER NOT NULL)] *)
Definition create_table_scores : M unit := λ db,
  match scores db with
  | Some _ => (Ok (), db)
  | None => (Ok (), with_scores ∅ db)
  end.

(** [CREATE TABLE IF NOT EXISTS proofs (proofId TEXT PRIMARY KEY, ...)] *)
Definition create_table_proofs : M unit := λ db,
  match proofs db with
  | Some _ => (Ok (), db)
  | None => (Ok (), with_proofs ∅ db)
  end.

(** [CREATE INDEX IF NOT EXISTS idx_proofs_created_at ON proofs(created_at DESC)]:
    an index changes no row. *)
Definition create_index_proofs_created_at : M unit := λ db,
  match proofs db with
  | Some _ => (Ok (), db)
  | None => (Throw (no_such_table "proofs"), db)
  end.

(** [SELECT COUNT( * ) AS count FROM scores] *)
Definition select_count_scores : M Z := λ db,
  match scores db with
  | Some t => (Ok (Z.of_nat (size t)), db)
  | None => (Throw (no_such_table "scores"), db)
  end.

(** [INSERT INTO scores (score, count) VALUES (@score, @count)], for the
    items of [initialScores], whose scores are SQLite integers. *)
Definition insert_score (item : ScoreCount) : M unit := λ db,
  match scores db with
  | Some t =>
      match t !! score item with
      | Some _ => (Throw (unique_failed "scores.score"), db)
      | None => (Ok (), with_scores (<[score item := count item]> t) db)
      end
  | None => (Throw (no_such_table "scores"), db)
  end.

Definition score_row (kv : Z * Z) : ScoreCount :=
  {| score := kv.1; count := kv.2 |}.

Definition proof_row (kv : string * ProofRecord) : ProofRow :=
  {| proofId := kv.1; record := kv.2 |}.

(** [ORDER BY score DESC]: [a] may come before [b]. *)
Definition score_desc (a b : ScoreCount) : Prop := score b ≤ score a.

Global Instance score_desc_dec a b : Decision (score_desc a b).
Proof. unfold score_desc. apply _. Defined.

(** [ORDER BY created_at DESC]: [a] may come before [b]. *)
Definition created_at_desc (a b : ProofRow) : Prop :=
  created_at (record b) ≤ created_at (record a).

Global Instance created_at_desc_dec a b : Decision (created_at_desc a b).
Proof. unfold created_at_desc. apply _. Defined.

(** [SELECT score, count FROM scores ORDER BY score DESC] *)
Definition select_scores_desc : M (list ScoreCount) := λ db,
  match scores db with
  | Some t => (Ok (merge_sort score_desc (score_row <$> map_to_list t)), db)
  | None => (Throw (no_such_table "scores"), db)
  end.

(** [SELECT proofId, proof, score, created_at FROM proofs ORDER BY created_at DESC];
    rows with equal timestamps come in the order the sort leaves them. *)
Definition select_proofs_desc : M (list ProofRow) := λ db,
  match proofs db with
  | Some t => (Ok (merge_sort created_at_desc (proof_row <$> map_to_list t)), db)
  | None => (Throw (no_such_table "proofs"), db)
  end.

(** [SELECT proofId FROM proofs WHERE proofId = ?] *)
Definition select_proof (id : string) : M (option string) := λ db,
  match proofs db with
  | Some t => (Ok (match t !! id with Some _ => Some id | None => None end), db)
  | None => (Throw (no_such_table "proofs"), db)
  end.

(** [INSERT INTO proofs (proofId, proof, score) VALUES (?, ?, ?)];
    [created_at] takes its default, the current time [now]. The column
    [score INTEGER NOT NULL] refuses [NaN], which is bound as NULL, and
    stores every other number, as an INTEGER or as a REAL. *)
Definition insert_proof (id content : string) (s : number) (now : Z) : M unit := λ db,
  match proofs db with
  | Some t =>
      match s with
      | NaN => (Throw (not_null_failed "proofs.score"), db)
      | _ =>
          match t !! id with
          | Some _ => (Throw (unique_failed "proofs.proofId"), db)
          | None =>
              (Ok (), with_proofs
                        (<[id := {| proof := content; proof_score := s;
                                    created_at := now |}]> t) db)
          end
      end
  | None => (Throw (no_such_table "proofs"), db)
  end.

(** [SELECT score, count FROM scores WHERE score = ?]: no row for a
    number that is no rowid. *)
Definition select_score (s : number) : M (option ScoreCount) := λ db,
  match scores db with
  | Some t =>
      (Ok (match rowid_of s with
           | Some k => (λ c, {| score := k; count := c |}) <$> t !! k
           | None => None
           end), db)
  | None => (Throw (no_such_table "scores"), db)
  end.

(** [UPDATE scores SET count = count + 1 WHERE score = ?] *)
Definition update_score_increment (s : number) : M unit := λ db,
  match scores db with
  | Some t =>
      match rowid_of s with
      | Some k => (Ok (), with_scores (alter (λ c, c + 1) k t) db)
      | None => (Ok (), db)
      end
  | None => (Throw (no_such_table "scores"), db)
  end.

(** The rowid SQLite picks for a NULL key: 1 on an empty table, else one
    more than the largest. *)
Definition new_rowid (t : gmap Z Z) : Z :=
  match (map_to_list t).*1 with
  | [] => 1
  | k :: ks => foldr Z.max k ks + 1
  end.

(** [INSERT INTO scores (score, count) VALUES (?, 1)]. The key is the
    rowid: an INTEGER PRIMARY KEY takes an integer, refuses any other
    number with [datatype mismatch], and picks a rowid itself for NULL. *)
Definition insert_score_one (s : number) : M unit := λ db,
  match scores db with
  | Some t =>
      match s with
      | NaN => (Ok (), with_scores (<[new_rowid t := 1]> t) db)
      | _ =>
          match rowid_of s with
          | Some k =>
              match t !! k with
              | Some _ => (Throw (unique_failed "scores.score"), db)
              | None => (Ok (), with_scores (<[k := 1]> t) db)
              end
          | None => (Throw datatype_mismatch, db)
          end
      end
  | None => (Throw (no_such_table "scores"), db)
  end.

(** ** What the module imports *)

(** The functions the routes call and this repository does not define:
    [Buffer.prototype.toString('utf-8')], [String.prototype.trim],
    [JSON.parse] (which may throw) and [verify2048Proof] from [./zk]
    (awaited; it may reject). The verifier answers with an identifier,
    possibly missing, and a score. *)
Class Externals := {
  JsonProof : Type;
  toString_utf8 : string → string;
  trim : string → string;
  JSON_parse : string → Completion JsonProof;
  verify2048Proof : JsonProof → Completion (option string * number)
}.

(** ** Responses *)

Inductive Body :=
| ScoresJson (rows : list ScoreCount)
| ProofsJson (rows : list ProofRow)
| ErrorJson (error : string)
| MessageJson (message : string) (accepted_score : number).

Record Response := { status : Z; body : Body }.

(** [res.json(x)] *)
Definition res_json (b : Body) : Response := {| status := 200; body := b |}.

(** [res.status(code).json(x)] *)
Definition res_status_json (code : Z) (b : Body) : Response :=
  {| status := code; body := b |}.

(** ** Initialisation *)

Definition initDb : M unit :=
  _ ← create_table_scores;
  _ ← create_table_proofs;
  _ ← create_index_proofs_created_at;
  row_count ← select_count_scores;
  if bool_decide (row_count = 0)
  then transaction (for_each initialScores insert_score)
  else mret ().

(** ** Routes *)

(** The [try] block of [GET /scores]. *)
Definition get_scores_body : M Response :=
  all ← select_scores_desc;
  mret (res_json (ScoresJson all)).

Definition get_scores : Database → Response * Database :=
  try_catch get_scores_body
    (λ _, res_status_json 500 (ErrorJson "Failed to fetch scores")).

(** The [try] block of [GET /proofs]. *)
Definition get_proofs_body : M Response :=
  all ← select_proofs_desc;
  mret (res_json (ProofsJson all)).

Definition get_proofs : Database → Response * Database :=
  try_catch get_proofs_body
    (λ _, res_status_json 500 (ErrorJson "Failed to fetch proofs")).

Section Routes.
Context `{Externals}.

(** The verifier's answer is refused:
    [!proofId || parsedScore == -1 || isNaN(parsedScore)]. *)
Definition invalid_proof_data (id : option string) (parsedScore : number) : bool :=
  negb (truthy id) || number_eq parsedScore (-1) || isNaN parsedScore.

(** Steps 3 to 6 of the POST route, for an identifier that is a non-empty
    string. *)
Definition record_proof (id content : string) (parsedScore : number) (now : Z)
  : M Response :=
  existingProof ← select_proof id;
  match existingProof with
  | Some _ => mret (res_status_json 400 (ErrorJson "Proof already submitted"))
  | None =>
      _ ← insert_proof id content parsedScore now;
      scoreRow ← select_score parsedScore;
      _ ← match scoreRow with
          | Some _ => update_score_increment parsedScore
          | None => insert_score_one parsedScore
          end;
      mret (res_status_json 201
              (MessageJson "Proof verified and score updated" parsedScore))
  end.

(** The [try] block of [POST /scores/proof]; [file] is [req.file.buffer]
    when multer found the field [proof]. Past the test on the verifier's
    answer the identifier is a string, which the inner [match] spells out;
    its last case is never taken ([invalid_proof_data_false]). *)
Definition post_scores_proof_body (file : option string) (now : Z) : M Response :=
  match file with
  | None => mret (res_status_json 400 (ErrorJson "No proof file uploaded"))
  | Some buffer =>
      let content := trim (toString_utf8 buffer) in
      proof ← lift (JSON_parse content);
      '(id, parsedScore) ← lift (verify2048Proof proof);
      if invalid_proof_data id parsedScore
      then mret (res_status_json 400 (ErrorJson "Invalid proof data"))
      else
        match id with
        | Some id => record_proof id content parsedScore now
        | None => mret (res_status_json 400 (ErrorJson "Invalid proof data"))
        end
  end.

Definition post_scores_proof (file : option string) (now : Z)
  : Database → Response * Database :=
  try_catch (post_scores_proof_body file now)
    (λ _, res_status_json 500 (ErrorJson "Failed to process proof")).

(** ** The service as a transition system *)

(** A request as its route handler receives it, once [express.json],
    [cors] and multer's [upload.single] have passed it on; what Express
    answers when one of those fails is not the handlers' and not modelled. *)
Inductive Request :=
| GET_scores
| GET_proofs
| POST_scores_proof (file : option string) (now : Z).

Definition handle (r : Request) : Database → Response * Database :=
  match r with
  | GET_scores => get_scores
  | GET_proofs => get_proofs
  | POST_scores_proof file now => post_scores_proof file now
  end.

(** The [try] block of each route, and the message of its [catch]. *)
Definition handler_body (r : Request) : M Response :=
  match r with
  | GET_scores => get_scores_body
  | GET_proofs => get_proofs_body
  | POST_scores_proof file now => post_scores_proof_body file now
  end.

Definition failure_message (r : Request) : string :=
  match r with
  | GET_scores => "Failed to fetch scores"
  | GET_proofs => "Failed to fetch proofs"
  | POST_scores_proof _ _ => "Failed to process proof"
  end.

(** Everything the service does to the database: start-up and requests. *)
Inductive Operation :=
| Initialize
| Serve (r : Request).

Definition perform (op : Operation) (db : Database) : Database :=
  match op with
  | Initialize => (initDb db).2
  | Serve r => (handle r db).2
  end.

(** The states the service goes through: [initDb] on a new database file,
    then one request after the other. *)
Inductive reachable : Database → Prop :=
| reachable_init db :
    initDb new_Database = (Ok (), db) → reachable db
| reachable_handle db r :
    reachable db → reachable (handle r db).2.

End Routes.

(** ** Vocabulary of the properties *)

(** The rows of a table, none when the table does not exist. *)
Definition rows {K} `{Countable K} {V} (t : option (gmap K V)) : gmap K V :=
  default ∅ t.

(** The number of [proofs] rows whose score is [S]. *)
Definition proofs_with_score (S : Z) (t : gmap string ProofRecord) : Z :=
  Z.of_nat (size (filter (λ kv, proof_score kv.2 = Num S) t)).

(** Both tables exist, the keys of [scores] are SQLite integers and every
    such integer is tallied: the count of a score in [scores] is the number
    of its proofs, and a score without a row has no proof. *)
Definition tallied (db : Database) : Prop :=
  ∃ ts tp, scores db = Some ts ∧ proofs db = Some tp ∧
    (∀ S c, ts !! S = Some c → sqlite_integer S) ∧
    ∀ S, sqlite_integer S → proofs_with_score S tp = default 0 (ts !! S).

(** The table [insertMany(initialScores)] builds from an empty one. *)
Definition seed_table : gmap Z Z :=
  foldl (λ t item, <[score item := count item]> t) ∅ initialScores.

(** [ORDER BY score DESC] over a unique key: strictly descending. *)
Definition score_strictly_desc (a b : ScoreCount) : Prop := score b < score a.

(** ** Further vocabulary *)


(** The sum of the counts of a [scores] table. *)
Definition total_count (t : gmap Z Z) : Z :=
  map_fold (λ _ c acc, c + acc) 0 t.

(** The database an accepted submission leaves. *)
Definition accepted_db (id content : string) (s now : Z)
    (ts : gmap Z Z) (tp : gmap string ProofRecord) : Database :=
  {| scores := Some (<[s := default 0 (ts !! s) + 1]> ts);
     proofs := Some (<[id := {| proof := content; proof_score := s;
                                created_at := now |}]> tp) |}.

(** The database after the writes of a submission that got past the
    duplicate check: the new [proofs] row, and the count of its score when
    the score is a rowid. When it is none, [INSERT INTO scores] throws and
    the [proofs] row stays. *)
Definition written_db (id content : string) (s : number) (now : Z)
    (ts : gmap Z Z) (tp : gmap string ProofRecord) : Database :=
  {| scores := Some (match rowid_of s with
                     | Some k => <[k := default 0 (ts !! k) + 1]> ts
                     | None => ts
                     end);
     proofs := Some (<[id := {| proof := content; proof_score := s;
                                created_at := now |}]> tp) |}.

(** The number of [proofs] rows whose score is a rowid. *)
Definition proofs_on_leaderboard (t : gmap string ProofRecord) : Z :=
  Z.of_nat (size (filter (λ kv, is_Some (rowid_of (proof_score kv.2))) t)).

Section Runs.
Context `{Externals}.

(** The database after a sequence of requests, served in order. *)
Definition run (requests : list Request) (db : Database) : Database :=
  foldl (λ db r, (handle r db).2) db requests.

End Runs.

(** ** A sample environment

    An instance of [Externals] on which the properties below are run:
    proofs are the uploaded text itself, an empty upload is not JSON, and
    the verifier knows a handful of uploads. *)
Definition sample_verifier (p : string) : Completion (option string * number) :=
  if bool_decide (p = "first") then Ok (Some "id-1", Num 2048)
  else if bool_decide (p = "second") then Ok (Some "id-2", Num 3)
  else if bool_decide (p = "replay") then Ok (Some "id-1", Num 2048)
  else if bool_decide (p = "forged") then Ok (Some "id-1", Num (-1))
  else if bool_decide (p = "garbled") then Ok (Some "id-9", NaN)
  else if bool_decide (p = "anonymous") then Ok (None, Num 4)
  else if bool_decide (p = "huge") then Ok (Some "id-3", Num (10 ^ 19))
  else if bool_decide (p = "half") then
    Ok (Some "id-4", NonInteger (Fraction 2 1))
  else Throw (Rejection "not a proof").

Definition sample_externals : Externals := {|
  JsonProof := string;
  toString_utf8 := id;
  trim := id;
  JSON_parse := λ s, if bool_decide (s = "") then Throw SyntaxError else Ok s;
  verify2048Proof := sample_verifier
|}.

(** The service after start-up on a new file, and after it has accepted
    the upload ["first"] at time 7. *)
Definition started : Database := (initDb new_Database).2.

Definition after_first : Database :=
  (@handle sample_externals (POST_scores_proof (Some "first") 7) started).2.

(** The same service after the upload ["huge"], whose score 10^19 is no
    64-bit integer: its [proofs] row is stored and no count is raised. *)
Definition after_huge : Database :=
  (@handle sample_externals (POST_scores_proof (Some "huge") 8) after_first).2.

(** * Properties *)

Ltac unfold_M :=
  unfold mbind, M_bind, mret, M_ret, lift, throw, try_catch, transaction in *.

Lemma with_scores_same db t : scores db = Some t → with_scores t db = db.
Proof. destruct db; simpl; intros ->; reflexivity. Qed.

Lemma with_proofs_same db t : proofs db = Some t → with_proofs t db = db.
Proof. destruct db; simpl; intros ->; reflexivity. Qed.

(** Inserting rows with fresh, pairwise distinct keys never throws. *)
Lemma for_each_insert_score items : ∀ t db,
  scores db = Some t →
  NoDup (score <$> items) →
  (∀ item, item ∈ items → t !! score item = None) →
  for_each items insert_score db
  = (Ok (), with_scores (foldl (λ t item, <[score item := count item]> t) t items) db).
Proof.
  induction items as [|item rest IH]; intros t db Ht Hnd Hfresh; simpl.
  - unfold_M. by rewrite with_scores_same.
  - apply NoDup_cons in Hnd as [Hhead Hnd].
    unfold_M. unfold insert_score at 1. rewrite Ht.
    rewrite (Hfresh item) by set_solver.
    rewrite (IH (<[score item := count item]> t)); [done | done | done |].
    intros item' Hin. rewrite lookup_insert_ne.
    + apply Hfresh. set_solver.
    + intros Heq. apply Hhead. rewrite Heq. by apply list_elem_of_fmap_2.
Qed.

Lemma initialScores_NoDup : NoDup (score <$> initialScores).
Proof. apply (bool_decide_unpack _). by vm_compute. Qed.

Lemma seed_run db :
  scores db = Some ∅ →
  transaction (for_each initialScores insert_score) db
  = (Ok (), with_scores seed_table db).
Proof.
  intros Hempty. unfold transaction.
  rewrite (for_each_insert_score initialScores ∅ db Hempty initialScores_NoDup);
    [done |].
  intros item _. apply lookup_empty.
Qed.

(** What [initDb] does, in one equation: it never throws, creates the
    missing tables and seeds [scores] only when it has no row. *)
Lemma initDb_run db :
  initDb db
  = (Ok (), {| scores := Some (if bool_decide (size (rows (scores db)) = 0%nat)
                               then seed_table else rows (scores db));
               proofs := Some (rows (proofs db)) |}).
Proof.
  unfold initDb, mbind, M_bind, create_table_scores, create_table_proofs,
    create_index_proofs_created_at, select_count_scores.
  destruct db as [[ts|] [tp|]]; cbn -[for_each initialScores seed_table size].
  all: try rewrite map_size_empty.
  all: repeat case_bool_decide; try lia.
  all: try match goal with
           | Hsize : size _ = 0%nat |- _ => apply map_size_empty_inv in Hsize as ->
           end.
  all: try (rewrite seed_run by done); done.
Qed.

Lemma seed_table_ladder :
  seed_table = list_to_map ((λ s, (s, 0)) <$>
    [131072; 65536; 32768; 16384; 8192; 4096; 2048; 1024; 512; 256; 128; 64; 32; 16; 8; 4; 2]).
Proof. vm_compute. reflexivity. Qed.

Lemma seed_table_nonempty : seed_table ≠ ∅.
Proof. compute_done. Qed.

Lemma initDb_twice db : initDb (initDb db).2 = (Ok (), (initDb db).2).
Proof.
  rewrite !initDb_run. cbn [snd scores proofs rows default].
  destruct (decide (size (rows (scores db)) = 0%nat)) as [Hsize|Hsize].
  - rewrite (bool_decide_eq_true_2 _ Hsize).
    rewrite bool_decide_eq_false_2; [done |].
    apply map_size_non_empty_iff, seed_table_nonempty.
  - rewrite (bool_decide_eq_false_2 _ Hsize).
    by rewrite (bool_decide_eq_false_2 _ Hsize).
Qed.

(** *** Sorting by a unique key *)

Global Instance score_desc_trans : Transitive score_desc.
Proof. unfold score_desc. intros a b c ? ?. lia. Qed.

Global Instance score_desc_total : Total score_desc.
Proof. unfold score_desc. intros a b. lia. Qed.

(** A list sorted by descending score whose scores are pairwise distinct
    is strictly descending. *)
Lemma strictly_desc_of_NoDup l :
  StronglySorted score_desc l →
  NoDup (score <$> l) →
  StronglySorted score_strictly_desc l.
Proof.
  induction 1 as [|a l Hsorted IH Hall]; intros Hnd; [constructor |].
  rewrite fmap_cons in Hnd. apply NoDup_cons in Hnd as [Hfresh Hnd].
  constructor; [by apply IH |].
  rewrite Forall_forall in Hall |- *. intros b Hb.
  specialize (Hall b Hb). unfold score_desc, score_strictly_desc in *.
  destruct (decide (score b = score a)) as [Heq|]; [| lia].
  exfalso. apply Hfresh. rewrite <- Heq. by apply list_elem_of_fmap_2.
Qed.

Lemma score_of_score_row (l : list (Z * Z)) : score <$> (score_row <$> l) = l.*1.
Proof. rewrite <- list_fmap_compose. by apply list_fmap_ext. Qed.

Lemma elem_of_score_rows (t : gmap Z Z) r :
  r ∈ score_row <$> map_to_list t ↔ t !! score r = Some (count r).
Proof.
  rewrite list_elem_of_fmap. split.
  - intros [[s c] [-> Hin]]. by apply elem_of_map_to_list in Hin.
  - intros Hlook. exists (score r, count r). split; [by destruct r |].
    by apply elem_of_map_to_list.
Qed.

(** C7: [GET /scores] answers 200 with exactly the rows of the [scores]
    table, each once, in strictly descending order of score, and leaves
    the database as it is. *)
Theorem get_scores_sorted_rows db t :
  scores db = Some t →
  ∃ l, get_scores db = ({| status := 200; body := ScoresJson l |}, db) ∧
       l ≡ₚ score_row <$> map_to_list t ∧
       (∀ r, r ∈ l ↔ t !! score r = Some (count r)) ∧
       StronglySorted score_strictly_desc l.
Proof.
  intros Ht. exists (merge_sort score_desc (score_row <$> map_to_list t)).
  assert (Hperm := merge_sort_Permutation score_desc (score_row <$> map_to_list t)).
  split; [| split; [done | split]].
  - unfold get_scores, get_scores_body, try_catch, mbind, M_bind,
      select_scores_desc. by rewrite Ht.
  - intros r. rewrite Hperm. apply elem_of_score_rows.
  - apply strictly_desc_of_NoDup; [apply StronglySorted_merge_sort; apply _ |].
    rewrite Hperm, score_of_score_row. apply NoDup_fst_map_to_list.
Qed.

(** *** Start-up *)

(** C5: run on a database whose [scores] table has no row (or does not
    exist yet), [initDb] succeeds and leaves in [scores] exactly the
    seventeen rows 131072, 65536, ..., 2, each with count 0; it adds no
    row to [proofs]. *)
Theorem initDb_seeds_ladder db :
  rows (scores db) = ∅ →
  ∃ db', initDb db = (Ok (), db') ∧
    scores db' = Some (list_to_map ((λ s, (s, 0)) <$>
      [131072; 65536; 32768; 16384; 8192; 4096; 2048; 1024; 512;
       256; 128; 64; 32; 16; 8; 4; 2])) ∧
    rows (proofs db') = rows (proofs db).
Proof.
  intros Hempty. eexists. split; [apply initDb_run |].
  cbn [scores proofs rows default]. rewrite Hempty, map_size_empty.
  rewrite bool_decide_eq_true_2 by done. by rewrite seed_table_ladder.
Qed.

(** C10: run on a database whose [scores] table has at least one row,
    [initDb] succeeds and leaves the [scores] table, and the rows of
    [proofs], as they are. *)
Theorem initDb_keeps_scores db t :
  scores db = Some t →
  t ≠ ∅ →
  ∃ db', initDb db = (Ok (), db') ∧
    scores db' = Some t ∧
    rows (proofs db') = rows (proofs db).
Proof.
  intros Ht Hrows. eexists. split; [apply initDb_run |].
  cbn [scores proofs rows default]. rewrite Ht. cbn [rows default].
  rewrite bool_decide_eq_false_2; [done |].
  by apply map_size_non_empty_iff.
Qed.

(** *** Counting proofs *)

Lemma proofs_with_score_empty S : proofs_with_score S ∅ = 0.
Proof. unfold proofs_with_score. by rewrite map_filter_empty, map_size_empty. Qed.

Lemma proofs_with_score_insert S id r (t : gmap string ProofRecord) :
  t !! id = None →
  proofs_with_score S (<[id := r]> t)
  = proofs_with_score S t + (if decide (proof_score r = S) then 1 else 0).
Proof.
  intros Hfresh. unfold proofs_with_score. case_decide as Hscore.
  - rewrite map_filter_insert_True by done.
    rewrite map_size_insert_None; [lia |].
    by rewrite map_lookup_filter_None; left.
  - rewrite map_filter_insert_False by done.
    rewrite delete_id by done. lia.
Qed.

Lemma seed_table_zero S : default 0 (seed_table !! S) = 0.
Proof.
  assert (Hall : map_Forall (λ _ c, c = 0) seed_table) by compute_done.
  destruct (seed_table !! S) as [c|] eqn:Hlook; [| done].
  exact (Hall S c Hlook).
Qed.

Lemma seed_table_rowids S c : seed_table !! S = Some c → sqlite_integer S.
Proof.
  assert (Hall : map_Forall (λ S _, sqlite_integer S) seed_table) by compute_done.
  apply Hall.
Qed.

Lemma tallied_started : tallied started.
Proof.
  unfold started. rewrite initDb_run. cbn [snd].
  exists seed_table, ∅. split; [done | split; [done | split]].
  - apply seed_table_rowids.
  - intros S _. by rewrite proofs_with_score_empty, seed_table_zero.
Qed.

(** *** Numbers as keys *)

Lemma rowid_of_Some n k :
  rowid_of n = Some k ↔ n = Num k ∧ sqlite_integer k.
Proof.
  destruct n as [|z|x]; simpl.
  - split; [done | by intros [? _]].
  - case_bool_decide as Hz.
    + split; [by intros [= ->] | by intros [[= ->] _]].
    + split; [done | by intros [[= ->] ?]].
  - split; [done | by intros [? _]].
Qed.

Lemma rowid_of_Num k : sqlite_integer k → rowid_of (Num k) = Some k.
Proof. intros Hk. by apply rowid_of_Some. Qed.

(** Raising the count of a row, or creating it with count 1, is one
    insertion. *)
Lemma upsert_count (ts : gmap Z Z) s :
  match ts !! s with
  | Some _ => alter (λ c, c + 1) s ts
  | None => <[s := 1]> ts
  end = <[s := default 0 (ts !! s) + 1]> ts.
Proof.
  destruct (ts !! s) as [c|] eqn:Hrow; [| done].
  by rewrite (alter_alt_Some _ _ _ c).
Qed.

Lemma written_db_accepted id content n k now ts tp :
  rowid_of n = Some k →
  written_db id content n now ts tp = accepted_db id content k now ts tp.
Proof.
  intros Hk. unfold written_db, accepted_db. rewrite Hk.
  by apply rowid_of_Some in Hk as [-> _].
Qed.

(** *** The routes *)

Section Properties.
Context `{Externals}.

Ltac run_post :=
  unfold post_scores_proof, post_scores_proof_body, record_proof, try_catch,
    mbind, M_bind, mret, M_ret, lift, select_proof, insert_proof,
    select_score, update_score_increment, insert_score_one, insert_score in *.

(** The test on the verifier's answer lets through exactly a non-empty
    identifier with a score that is a number other than -1. *)
Lemma invalid_proof_data_false id parsedScore :
  invalid_proof_data id parsedScore = false ↔
  ∃ i, id = Some i ∧ i ≠ EmptyString ∧
       parsedScore ≠ NaN ∧ parsedScore ≠ Num (-1).
Proof.
  unfold invalid_proof_data, truthy, number_eq, isNaN. split.
  - destruct id as [i|], parsedScore as [|s|x]; simpl;
      repeat case_bool_decide; simpl; try done.
    + intros _. exists i. repeat split; [done | done | congruence].
    + intros _. by exists i.
  - intros (i & -> & Hi & Hnan & Hminus).
    destruct parsedScore as [|s|x]; simpl; [done | |].
    + rewrite !bool_decide_eq_false_2; [done | congruence | done].
    + by rewrite bool_decide_eq_false_2.
Qed.

Lemma invalid_proof_data_true id parsedScore :
  invalid_proof_data id parsedScore = true ↔
  id = None ∨ id = Some EmptyString ∨ parsedScore = Num (-1) ∨ parsedScore = NaN.
Proof.
  split.
  - intros Hinvalid.
    destruct id as [i|]; [| by left].
    destruct (decide (i = EmptyString)) as [->|Hi]; [by right; left |].
    destruct (decide (parsedScore = Num (-1))) as [->|Hminus];
      [by right; right; left |].
    destruct (decide (parsedScore = NaN)) as [->|Hnan];
      [by right; right; right |].
    assert (invalid_proof_data (Some i) parsedScore = false) as Hfalse
      by (apply invalid_proof_data_false; by exists i).
    congruence.
  - intros Hcase.
    destruct (invalid_proof_data id parsedScore) eqn:Hvalid; [done |].
    apply invalid_proof_data_false in Hvalid as (i & -> & Hi & Hnan & Hminus).
    by destruct Hcase as [?|[[= ?]|[?|?]]].
Qed.

(** With both tables in place, what the [try] block does with an answer
    of the verifier that passes the test: a known identifier is refused; a
    new one is stored, and then counted when its score is a rowid, while
    [INSERT INTO scores] throws when it is none. *)
Lemma post_body_valid_run buffer now db p id n ts tp :
  JSON_parse (trim (toString_utf8 buffer)) = Ok p →
  verify2048Proof p = Ok (Some id, n) →
  id ≠ EmptyString → n ≠ NaN → n ≠ Num (-1) →
  scores db = Some ts → proofs db = Some tp →
  post_scores_proof_body (Some buffer) now db
  = match tp !! id with
    | Some _ =>
        (Ok {| status := 400; body := ErrorJson "Proof already submitted" |}, db)
    | None =>
        (match rowid_of n with
         | Some _ =>
             Ok {| status := 201;
                   body := MessageJson "Proof verified and score updated" n |}
         | None => Throw datatype_mismatch
         end,
         written_db id (trim (toString_utf8 buffer)) n now ts tp)
    end.
Proof.
  intros Hparse Hverify Hid Hnan Hminus Hts Htp.
  assert (invalid_proof_data (Some id) n = false) as Hvalid
    by (apply invalid_proof_data_false; by exists id).
  destruct db as [ots otp]. simpl in Hts, Htp. subst ots otp.
  unfold post_scores_proof_body. unfold_M. rewrite Hparse, Hverify, Hvalid.
  unfold record_proof, select_proof. unfold_M. cbn [proofs].
  destruct (tp !! id) as [rec|] eqn:Hrow; [done |].
  unfold insert_proof, select_score, update_score_increment, insert_score_one,
    written_db.
  destruct n as [|k|x]; [done | |].
  - cbn [proofs scores with_proofs with_scores rowid_of]. rewrite Hrow.
    cbn [proofs scores with_proofs with_scores rowid_of].
    case_bool_decide as Hk; [| done].
    rewrite <- upsert_count.
    destruct (ts !! k) as [c|] eqn:Hcount;
      cbn [fmap option_fmap option_map proofs scores with_proofs with_scores rowid_of];
      rewrite ?bool_decide_eq_true_2 by done;
      cbn [proofs scores with_proofs with_scores]; by rewrite ?Hcount.
  - cbn [proofs scores with_proofs with_scores rowid_of]. by rewrite Hrow.
Qed.

Lemma post_valid_run buffer now db p id n ts tp :
  JSON_parse (trim (toString_utf8 buffer)) = Ok p →
  verify2048Proof p = Ok (Some id, n) →
  id ≠ EmptyString → n ≠ NaN → n ≠ Num (-1) →
  scores db = Some ts → proofs db = Some tp →
  post_scores_proof (Some buffer) now db
  = match tp !! id with
    | Some _ =>
        ({| status := 400; body := ErrorJson "Proof already submitted" |}, db)
    | None =>
        (match rowid_of n with
         | Some _ =>
             {| status := 201;
                body := MessageJson "Proof verified and score updated" n |}
         | None =>
             {| status := 500; body := ErrorJson "Failed to process proof" |}
         end,
         written_db id (trim (toString_utf8 buffer)) n now ts tp)
    end.
Proof.
  intros Hparse Hverify Hid Hnan Hminus Hts Htp.
  unfold post_scores_proof, try_catch.
  rewrite (post_body_valid_run _ _ _ _ _ _ _ _ Hparse Hverify Hid Hnan Hminus
             Hts Htp).
  destruct (tp !! id); [done |]. by destruct (rowid_of n).
Qed.

(** Every way a submission ends: nothing written; or, past the duplicate
    check with both tables in place, the writes of [written_db], answered
    201 when the score is a rowid and 500 when it is none; or, without a
    [scores] table, the [proofs] row alone and a 500. *)
Lemma post_cases file now db resp db' :
  post_scores_proof file now db = (resp, db') →
  (db' = db ∧ status resp ≠ 201) ∨
  (∃ buffer p id n ts tp,
     file = Some buffer ∧
     JSON_parse (trim (toString_utf8 buffer)) = Ok p ∧
     verify2048Proof p = Ok (Some id, n) ∧
     id ≠ EmptyString ∧ n ≠ NaN ∧ n ≠ Num (-1) ∧
     scores db = Some ts ∧ proofs db = Some tp ∧ tp !! id = None ∧
     db' = written_db id (trim (toString_utf8 buffer)) n now ts tp ∧
     resp = match rowid_of n with
            | Some _ =>
                {| status := 201;
                   body := MessageJson "Proof verified and score updated" n |}
            | None =>
                {| status := 500; body := ErrorJson "Failed to process proof" |}
            end) ∨
  (∃ id rec tp,
     scores db = None ∧ proofs db = Some tp ∧ tp !! id = None ∧
     db' = with_proofs (<[id := rec]> tp) db ∧ status resp = 500).
Proof.
  intros Hrun.
  destruct file as [buffer|]; [| by left; run_post; simplify_eq].
  destruct (JSON_parse (trim (toString_utf8 buffer))) as [p|e] eqn:Hparse;
    [| by left; run_post; rewrite Hparse in Hrun; simplify_eq].
  destruct (verify2048Proof p) as [[id n]|e] eqn:Hverify;
    [| by left; run_post; rewrite Hparse, Hverify in Hrun; simplify_eq].
  destruct (invalid_proof_data id n) eqn:Hvalid;
    [by left; run_post; rewrite Hparse, Hverify, Hvalid in Hrun; simplify_eq |].
  pose proof Hvalid as (i & -> & Hi & Hnan & Hminus)%invalid_proof_data_false.
  destruct (proofs db) as [tp|] eqn:Htp;
    [| by left; run_post; rewrite Hparse, Hverify, Hvalid, Htp in Hrun;
       simplify_eq].
  destruct (scores db) as [ts|] eqn:Hts.
  - rewrite (post_valid_run _ _ _ _ _ _ _ _ Hparse Hverify Hi Hnan Hminus Hts Htp)
      in Hrun.
    destruct (tp !! i) as [rec|] eqn:Hrow; [left; by simplify_eq |].
    right; left. injection Hrun as <- <-.
    by exists buffer, p, i, n, ts, tp.
  - run_post. rewrite Hparse, Hverify, Hvalid, Htp in Hrun.
    destruct (tp !! i) as [rec|] eqn:Hrow; [left; by simplify_eq |].
    right; right. destruct n as [|k|x]; [done | |].
    all: rewrite Htp, Hrow in Hrun; cbn [scores with_proofs] in Hrun.
    all: rewrite Hts in Hrun; injection Hrun as <- <-.
    all: by eexists i, _, tp.
Qed.

(** An accepted submission, read backwards from its 201. *)
Lemma post_201_valid file now db resp db' :
  post_scores_proof file now db = (resp, db') →
  status resp = 201 →
  ∃ buffer p id s ts tp,
    file = Some buffer ∧
    JSON_parse (trim (toString_utf8 buffer)) = Ok p ∧
    verify2048Proof p = Ok (Some id, Num s) ∧
    id ≠ EmptyString ∧ s ≠ -1 ∧ sqlite_integer s ∧
    scores db = Some ts ∧ proofs db = Some tp ∧ tp !! id = None ∧
    resp = {| status := 201;
              body := MessageJson "Proof verified and score updated" s |} ∧
    db' = accepted_db id (trim (toString_utf8 buffer)) s now ts tp.
Proof.
  intros Hrun Hok.
  destruct (post_cases _ _ _ _ _ Hrun)
    as [[_ Hno] | [(buffer & p & id & n & ts & tp & -> & Hparse & Hverify & Hid
                    & Hnan & Hminus & Hts & Htp & Hfresh & -> & ->)
                  | (id & rec & tp & _ & _ & _ & _ & Hfail)]];
    [done | | by rewrite Hfail in Hok].
  destruct (rowid_of n) as [k|] eqn:Hk; [| done].
  pose proof Hk as [-> Hrange]%rowid_of_Some.
  exists buffer, p, id, k, ts, tp.
  rewrite (written_db_accepted _ _ _ k) by done.
  split_and!; try done. by intros ->.
Qed.

Lemma get_scores_db db : (get_scores db).2 = db.
Proof.
  unfold get_scores, get_scores_body, try_catch, mbind, M_bind,
    select_scores_desc. by destruct (scores db).
Qed.

Lemma get_proofs_db db : (get_proofs db).2 = db.
Proof.
  unfold get_proofs, get_proofs_body, try_catch, mbind, M_bind,
    select_proofs_desc. by destruct (proofs db).
Qed.

(** Whatever a submission ends with, it leaves the rows of [proofs] as
    they are or adds one row under a key that was free. *)
Lemma post_proofs_rows file now db :
  let after := rows (proofs (post_scores_proof file now db).2) in
  after = rows (proofs db) ∨
  ∃ id rec, rows (proofs db) !! id = None ∧ after = <[id := rec]> (rows (proofs db)).
Proof.
  destruct (post_scores_proof file now db) as [resp db'] eqn:Hrun. simpl.
  destruct (post_cases _ _ _ _ _ Hrun)
    as [[-> _] | [(buffer & p & id & n & ts & tp & _ & _ & _ & _ & _ & _ & _
                   & Htp & Hfresh & -> & _)
                 | (id & rec & tp & _ & Htp & Hfresh & -> & _)]].
  - by left.
  - right. rewrite Htp. by eexists id, _.
  - right. rewrite Htp. by eexists id, _.
Qed.

(** Whatever a submission ends with, it leaves the rows of [scores] as
    they are or sets one count to its former value, or 0, plus 1. *)
Lemma post_scores_rows file now db :
  let before := rows (scores db) in
  let after := rows (scores (post_scores_proof file now db).2) in
  after = before ∨
  ∃ s, after = <[s := default 0 (before !! s) + 1]> before.
Proof.
  destruct (post_scores_proof file now db) as [resp db'] eqn:Hrun. simpl.
  destruct (post_cases _ _ _ _ _ Hrun)
    as [[-> _] | [(buffer & p & id & n & ts & tp & _ & _ & _ & _ & _ & _ & Hts
                   & _ & _ & -> & _)
                 | (id & rec & tp & Hts & _ & _ & -> & _)]].
  - by left.
  - rewrite Hts. unfold written_db, rows. simpl.
    destruct (rowid_of n) as [k|]; [right; by exists k | by left].
  - by left.
Qed.

(** The tally survives every request. *)
Lemma tallied_handle r db : tallied db → tallied (handle r db).2.
Proof.
  intros Htally. destruct r as [| |file now]; simpl.
  - by rewrite get_scores_db.
  - by rewrite get_proofs_db.
  - destruct (post_scores_proof file now db) as [resp db'] eqn:Hrun. simpl.
    destruct Htally as (ts & tp & Hts & Htp & Hkeys & Hcount).
    destruct (post_cases _ _ _ _ _ Hrun)
      as [[-> _] | [(buffer & p & id & n & ts' & tp' & _ & _ & _ & _ & _ & _
                     & Hts' & Htp' & Hfresh & -> & _)
                   | (id & rec & tp' & Hts' & _)]];
      [by exists ts, tp | | congruence].
    rewrite Hts in Hts'. rewrite Htp in Htp'.
    injection Hts' as <-. injection Htp' as <-.
    eexists _, _. split; [done |]. split; [done |]. split.
    + intros S c. destruct (rowid_of n) as [k|] eqn:Hk; [| apply Hkeys].
      intros [[<- _]|[_ Hrow]]%lookup_insert_Some; [| by eapply Hkeys].
      by apply rowid_of_Some in Hk as [_ ?].
    + intros S HS. rewrite proofs_with_score_insert by done. simpl.
      rewrite (Hcount S HS). destruct (rowid_of n) as [k|] eqn:Hk.
      * apply rowid_of_Some in Hk as [-> Hrange]. case_decide as Hscore.
        -- injection Hscore as ->. by rewrite lookup_insert_eq.
        -- rewrite lookup_insert_ne by congruence. lia.
      * case_decide as Hscore; [| lia].
        rewrite Hscore, (rowid_of_Num S HS) in Hk. done.
Qed.

Lemma reachable_tallied db : reachable db → tallied db.
Proof.
  induction 1 as [db Hinit | db r _ IH].
  - pose proof tallied_started as Hstart. unfold started in Hstart.
    by rewrite Hinit in Hstart.
  - by apply tallied_handle.
Qed.

(** C1: in every state the service reaches from a new database file by
    [initDb] and any sequence of requests, both tables exist and the count
    stored for a score in [scores] is the number of [proofs] rows with
    that score. *)
Theorem count_is_number_of_proofs db :
  reachable db →
  ∃ ts tp, scores db = Some ts ∧ proofs db = Some tp ∧
    ∀ S c, ts !! S = Some c → c = proofs_with_score S tp.
Proof.
  intros Hreach. destruct (reachable_tallied db Hreach)
    as (ts & tp & Hts & Htp & Hkeys & Hcount).
  exists ts, tp. split; [done | split; [done |]].
  intros S c Hrow. rewrite (Hcount S (Hkeys S c Hrow)). by rewrite Hrow.
Qed.

(** C2, as amended: a submission whose verifier-returned identifier is
    already a key of [proofs] is answered 400 and writes to neither table;
    the error is 'Proof already submitted' when the verifier's answer
    passes the validity test (non-empty identifier, score a number other
    than -1) and 'Invalid proof data' when it does not. *)
Theorem duplicate_proof_rejected buffer now db p id parsedScore tp rec :
  JSON_parse (trim (toString_utf8 buffer)) = Ok p →
  verify2048Proof p = Ok (Some id, parsedScore) →
  proofs db = Some tp →
  tp !! id = Some rec →
  ∃ resp, post_scores_proof (Some buffer) now db = (resp, db) ∧
    status resp = 400 ∧
    ((id ≠ EmptyString ∧ parsedScore ≠ Num (-1) ∧ parsedScore ≠ NaN) →
       body resp = ErrorJson "Proof already submitted") ∧
    ((id = EmptyString ∨ parsedScore = Num (-1) ∨ parsedScore = NaN) →
       body resp = ErrorJson "Invalid proof data").
Proof.
  intros Hparse Hverify Htp Hrow. run_post.
  rewrite Hparse, Hverify.
  destruct (invalid_proof_data (Some id) parsedScore) eqn:Hvalid.
  - eexists. split; [done |]. split; [done |].
    split; [| done]. intros (Hid & Hminus & Hnan).
    assert (invalid_proof_data (Some id) parsedScore = false) as Hfalse
      by (apply invalid_proof_data_false; by exists id).
    congruence.
  - apply invalid_proof_data_false in Hvalid
      as (i & [= <-] & Hid & Hnan & Hminus).
    rewrite Htp, Hrow. eexists. split; [done |]. split; [done |].
    split; [done |]. by intros [?|[?|?]].
Qed.

(** C3: when the verifier answers with a missing or empty identifier, or
    with the score -1, or with a score that is not a number, the
    submission is answered 400 'Invalid proof data' and the database is
    left as it is. *)
Theorem invalid_verifier_answer_rejected buffer now db p id parsedScore :
  JSON_parse (trim (toString_utf8 buffer)) = Ok p →
  verify2048Proof p = Ok (id, parsedScore) →
  id = None ∨ id = Some EmptyString ∨ parsedScore = Num (-1) ∨ parsedScore = NaN →
  post_scores_proof (Some buffer) now db
  = ({| status := 400; body := ErrorJson "Invalid proof data" |}, db).
Proof.
  intros Hparse Hverify Hinvalid. run_post.
  rewrite Hparse, Hverify.
  by rewrite (proj2 (invalid_proof_data_true id parsedScore) Hinvalid).
Qed.

(** C4: a submission with verifier-returned score [S] is accepted
    (answered 201) exactly when the identifier is a non-empty string that
    is not yet a key of [proofs], [S] is an integer other than -1 that
    SQLite takes as a key, and both tables exist; it then changes the
    [scores] table in the row of [S] only: a row that was there has its
    count raised by exactly 1, and when there was none the row (S, 1) is
    created. *)
Theorem accepted_proof_counts_once buffer now db p id S :
  JSON_parse (trim (toString_utf8 buffer)) = Ok p →
  verify2048Proof p = Ok (id, Num S) →
  let answer := post_scores_proof (Some buffer) now db in
  (status answer.1 = 201 ↔
     ∃ i ts tp, id = Some i ∧ i ≠ EmptyString ∧ S ≠ -1 ∧ sqlite_integer S ∧
       scores db = Some ts ∧ proofs db = Some tp ∧ tp !! i = None) ∧
  (status answer.1 = 201 →
     ∃ ts ts', scores db = Some ts ∧ scores answer.2 = Some ts' ∧
       (∀ S', S' ≠ S → ts' !! S' = ts !! S') ∧
       (∀ c, ts !! S = Some c → ts' !! S = Some (c + 1)) ∧
       (ts !! S = None → ts' !! S = Some 1)).
Proof.
  intros Hparse Hverify answer.
  assert (status answer.1 = 201 →
          ∃ i ts tp, id = Some i ∧ i ≠ EmptyString ∧ S ≠ -1 ∧ sqlite_integer S ∧
            scores db = Some ts ∧ proofs db = Some tp ∧ tp !! i = None ∧
            answer.2 = accepted_db i (trim (toString_utf8 buffer)) S now ts tp)
    as Hinv.
  { intros Hok. subst answer.
    destruct (post_scores_proof (Some buffer) now db) as [resp db'] eqn:Hrun.
    destruct (post_201_valid _ _ _ _ _ Hrun Hok)
      as (buffer' & p' & i & s & ts & tp & [= <-] & Hparse' & Hverify'
          & Hi & Hs & Hrange & Hts & Htp & Hfresh & _ & ->).
    rewrite Hparse in Hparse'. injection Hparse' as <-.
    rewrite Hverify in Hverify'. injection Hverify' as -> <-.
    by exists i, ts, tp. }
  split; [split |].
  - intros Hok. destruct (Hinv Hok)
      as (i & ts & tp & ? & ? & ? & ? & ? & ? & ? & _).
    by exists i, ts, tp.
  - intros (i & ts & tp & -> & Hi & Hs & Hrange & Hts & Htp & Hfresh).
    subst answer.
    rewrite (post_valid_run _ _ _ _ _ _ _ _ Hparse Hverify Hi) by
      (done || congruence).
    by rewrite Hfresh, (rowid_of_Num S Hrange).
  - intros Hok. destruct (Hinv Hok)
      as (i & ts & tp & _ & _ & _ & _ & Hts & _ & _ & ->).
    exists ts, (<[S := default 0 (ts !! S) + 1]> ts).
    split; [done |]. split; [done |]. split; [| split].
    + intros S' Hother. by rewrite lookup_insert_ne.
    + intros c Hrow. by rewrite lookup_insert_eq, Hrow.
    + intros Hrow. by rewrite lookup_insert_eq, Hrow.
Qed.

(** C6: whatever the service does (start-up, [GET /scores], [GET /proofs],
    [POST /scores/proof]), every row of [proofs] is afterwards what it was
    before; start-up and the two GET routes leave the rows of [proofs] as
    they are, and an accepted submission adds exactly one row, under a key
    that was free. *)
Theorem proofs_rows_are_kept op db :
  (∀ id rec, rows (proofs db) !! id = Some rec →
             rows (proofs (perform op db)) !! id = Some rec) ∧
  match op with
  | Serve (POST_scores_proof file now) =>
      status (post_scores_proof file now db).1 = 201 →
      ∃ id rec, rows (proofs db) !! id = None ∧
        rows (proofs (perform op db)) = <[id := rec]> (rows (proofs db))
  | _ => rows (proofs (perform op db)) = rows (proofs db)
  end.
Proof.
  destruct op as [|[| |file now]]; cbn [perform handle].
  - rewrite initDb_run. cbn [snd proofs rows default]. by split.
  - rewrite get_scores_db. by split.
  - rewrite get_proofs_db. by split.
  - split.
    + intros id rec Hrow.
      destruct (post_proofs_rows file now db) as [->|(id' & rec' & Hfresh & ->)];
        [done |].
      rewrite lookup_insert_ne; [done |]. intros ->. congruence.
    + intros Hok.
      destruct (post_scores_proof file now db) as [resp db'] eqn:Hrun.
      destruct (post_201_valid _ _ _ _ _ Hrun Hok)
        as (buffer & p & id & s & ts & tp & _ & _ & _ & _ & _ & _ & _ & Htp
            & Hfresh & _ & ->).
      rewrite Htp. cbn [snd proofs rows default]. by eexists _, _.
Qed.

(** C8: when the [try] block of a route throws, whatever the error and
    whatever was written before it, the route answers with status 500 and
    its fixed error message. *)
Theorem catch_all_answers_500 r db e db' :
  handler_body r db = (Throw e, db') →
  handle r db = ({| status := 500; body := ErrorJson (failure_message r) |}, db').
Proof.
  intros Hthrow. destruct r; simpl in *.
  - unfold get_scores, try_catch. by rewrite Hthrow.
  - unfold get_proofs, try_catch. by rewrite Hthrow.
  - unfold post_scores_proof, try_catch. by rewrite Hthrow.
Qed.

(** The other way round: a route answers 500 only from its [catch]. *)
Lemma status_500_thrown r db :
  status (handle r db).1 = 500 → ∃ e, (handler_body r db).1 = Throw e.
Proof.
  destruct r as [| |file now]; simpl.
  - unfold get_scores, get_scores_body, try_catch, mbind, M_bind, mret, M_ret,
      select_scores_desc. destruct (scores db); simpl; [done | eauto].
  - unfold get_proofs, get_proofs_body, try_catch, mbind, M_bind, mret, M_ret,
      select_proofs_desc. destruct (proofs db); simpl; [done | eauto].
  - unfold post_scores_proof, try_catch.
    destruct (post_scores_proof_body file now db) as [[resp|e] db'] eqn:Hbody;
      simpl; [| eauto].
    intros Hstatus. exfalso. run_post.
    repeat case_match; simplify_eq/=.
Qed.

(** C9: a submission answered 400 has written to neither table. *)
Theorem rejection_writes_nothing file now db resp db' :
  post_scores_proof file now db = (resp, db') →
  status resp = 400 →
  db' = db.
Proof.
  intros Hrun Hstatus.
  destruct (post_cases _ _ _ _ _ Hrun)
    as [[-> _] | [(buffer & p & id & n & ts & tp & _ & _ & _ & _ & _ & _ & _
                   & _ & _ & _ & ->)
                 | (id & rec & tp & _ & _ & _ & _ & Hfail)]];
    [done | | by rewrite Hfail in Hstatus].
  by destruct (rowid_of n).
Qed.

End Properties.

(** * Further properties of the code *)

(** *** Start-up, from any state of the file *)


(** X2: [initDb] is idempotent: run again on the database it has left, it
    gives the same result and the same database as the first run. *)
Theorem initDb_idempotent db : initDb (initDb db).2 = initDb db.
Proof.
  rewrite !initDb_run. cbn [snd scores proofs rows default].
  destruct (decide (size (rows (scores db)) = 0%nat)) as [Hsize|Hsize].
  - rewrite (bool_decide_eq_true_2 _ Hsize).
    rewrite bool_decide_eq_false_2; [done |].
    apply map_size_non_empty_iff, seed_table_nonempty.
  - rewrite (bool_decide_eq_false_2 _ Hsize).
    by rewrite (bool_decide_eq_false_2 _ Hsize).
Qed.



(** *** Reading the proofs *)

Global Instance created_at_desc_trans : Transitive created_at_desc.
Proof. unfold created_at_desc. intros a b c ? ?. lia. Qed.

Global Instance created_at_desc_total : Total created_at_desc.
Proof. unfold created_at_desc. intros a b. lia. Qed.

Lemma elem_of_proof_rows (t : gmap string ProofRecord) r :
  r ∈ proof_row <$> map_to_list t ↔ t !! proofId r = Some (record r).
Proof.
  rewrite list_elem_of_fmap. split.
  - intros [[id rec] [-> Hin]]. by apply elem_of_map_to_list in Hin.
  - intros Hlook. exists (proofId r, record r). split; [by destruct r |].
    by apply elem_of_map_to_list.
Qed.

(** X4: on a database with a [proofs] table, [GET /proofs] answers 200
    with the rows of the table, each once, newest first (no row comes
    before one with a later [created_at]), and leaves the database as it
    is. *)
Theorem get_proofs_sorted_rows db t :
  proofs db = Some t →
  ∃ l, get_proofs db = ({| status := 200; body := ProofsJson l |}, db) ∧
       l ≡ₚ proof_row <$> map_to_list t ∧
       (∀ r, r ∈ l ↔ t !! proofId r = Some (record r)) ∧
       NoDup (proofId <$> l) ∧
       StronglySorted created_at_desc l.
Proof.
  intros Ht. exists (merge_sort created_at_desc (proof_row <$> map_to_list t)).
  assert (Hperm := merge_sort_Permutation created_at_desc
                     (proof_row <$> map_to_list t)).
  split; [| split; [done | split; [| split]]].
  - unfold get_proofs, get_proofs_body, try_catch, mbind, M_bind,
      select_proofs_desc. by rewrite Ht.
  - intros r. rewrite Hperm. apply elem_of_proof_rows.
  - rewrite Hperm, <- list_fmap_compose.
    replace (proofId ∘ proof_row <$> map_to_list t) with (map_to_list t).*1
      by (by apply list_fmap_ext).
    apply NoDup_fst_map_to_list.
  - apply StronglySorted_merge_sort; apply _.
Qed.

(** *** Submissions *)

Section Submissions.
Context `{Externals}.

(** A request leaves the database as it is or, with both tables in
    place, makes the writes of a submission that got past the duplicate
    check. *)
Lemma handle_cases r db :
  is_Some (scores db) → is_Some (proofs db) →
  (handle r db).2 = db ∨
  ∃ buffer now id n ts tp,
    r = POST_scores_proof (Some buffer) now ∧
    id ≠ EmptyString ∧ n ≠ NaN ∧ n ≠ Num (-1) ∧
    scores db = Some ts ∧ proofs db = Some tp ∧ tp !! id = None ∧
    (handle r db).2 = written_db id (trim (toString_utf8 buffer)) n now ts tp.
Proof.
  intros [ts Hts] [tp Htp]. destruct r as [| |file now]; simpl.
  - left. apply get_scores_db.
  - left. apply get_proofs_db.
  - destruct (post_scores_proof file now db) as [resp db'] eqn:Hrun. simpl.
    destruct (post_cases _ _ _ _ _ Hrun)
      as [[-> _] | [(buffer & p & id & n & ts' & tp' & -> & _ & _ & ? & ? & ?
                     & ? & ? & ? & -> & _)
                   | (id & rec & tp' & Hts' & _)]];
      [by left | | congruence].
    right. by exists buffer, now, id, n, ts', tp'.
Qed.

(** X5: with both tables in place, a submission whose file parses and for
    which the verifier answers a non-empty identifier that is not yet a key
    of [proofs] and a score that is an integer other than -1 which SQLite
    takes as a key is accepted: the answer is 201 with the score, [proofs]
    gets the row (identifier, trimmed upload, score, current time), and
    the count of the score becomes its former count, or 0, plus 1. *)
Theorem fresh_valid_proof_accepted buffer now db p id s ts tp :
  JSON_parse (trim (toString_utf8 buffer)) = Ok p →
  verify2048Proof p = Ok (Some id, Num s) →
  id ≠ EmptyString → s ≠ -1 → sqlite_integer s →
  scores db = Some ts → proofs db = Some tp →
  tp !! id = None →
  post_scores_proof (Some buffer) now db
  = ({| status := 201;
        body := MessageJson "Proof verified and score updated" s |},
     {| scores := Some (<[s := default 0 (ts !! s) + 1]> ts);
        proofs := Some (<[id := {| proof := trim (toString_utf8 buffer);
                                   proof_score := s;
                                   created_at := now |}]> tp) |}).
Proof.
  intros Hparse Hverify Hid Hs Hrange Hts Htp Hfresh.
  rewrite (post_valid_run _ _ _ _ _ _ _ _ Hparse Hverify Hid) by
    (done || congruence).
  rewrite Hfresh, (rowid_of_Num s Hrange).
  by rewrite (written_db_accepted _ _ _ s) by by apply rowid_of_Num.
Qed.

(** X6: the route accepts nothing the verifier has not passed: a 201 is
    only given to an upload that parses and for which the verifier answers
    a non-empty identifier, not yet a key of [proofs], and a score that is
    an integer other than -1 which SQLite takes as a key; the score in the
    answer is the verifier's. *)
Theorem accepted_only_if_verified file now db resp db' :
  post_scores_proof file now db = (resp, db') →
  status resp = 201 →
  ∃ buffer p id s,
    file = Some buffer ∧
    JSON_parse (trim (toString_utf8 buffer)) = Ok p ∧
    verify2048Proof p = Ok (Some id, Num s) ∧
    id ≠ EmptyString ∧ s ≠ -1 ∧ sqlite_integer s ∧
    rows (proofs db) !! id = None ∧
    body resp = MessageJson "Proof verified and score updated" s.
Proof.
  intros Hrun Hok.
  destruct (post_201_valid _ _ _ _ _ Hrun Hok)
    as (buffer & p & id & s & ts & tp & -> & ? & ? & ? & ? & ? & ? & Htp & ?
        & -> & _).
  exists buffer, p, id, s. by rewrite Htp.
Qed.

(** Requests keep the rows of [proofs]. *)
Lemma handle_keeps_proof r db id rec :
  rows (proofs db) !! id = Some rec →
  rows (proofs (handle r db).2) !! id = Some rec.
Proof.
  intros Hrow. destruct r as [| |file now]; simpl.
  - by rewrite get_scores_db.
  - by rewrite get_proofs_db.
  - destruct (post_proofs_rows file now db) as [->|(id' & rec' & Hfresh & ->)];
      [done |].
    rewrite lookup_insert_ne; [done |]. intros ->. congruence.
Qed.

Lemma run_keeps_proof requests : ∀ db id rec,
  rows (proofs db) !! id = Some rec →
  rows (proofs (run requests db)) !! id = Some rec.
Proof.
  induction requests as [|r requests IH]; intros db id rec Hrow; [done |].
  simpl. by apply IH, handle_keeps_proof.
Qed.

(** X7: an identifier is counted once for good. Once it is a key of
    [proofs], then after any further requests every submission for which
    the verifier answers that identifier is answered 400 and writes
    nothing, and the row of the identifier is still the same. *)
Theorem identifier_never_accepted_again requests buffer now db id rec p parsedScore :
  rows (proofs db) !! id = Some rec →
  JSON_parse (trim (toString_utf8 buffer)) = Ok p →
  verify2048Proof p = Ok (Some id, parsedScore) →
  ∃ resp,
    post_scores_proof (Some buffer) now (run requests db)
    = (resp, run requests db) ∧
    status resp = 400 ∧
    rows (proofs (run requests db)) !! id = Some rec.
Proof.
  intros Hrow Hparse Hverify.
  pose proof (run_keeps_proof requests db id rec Hrow) as Hlater.
  set (db' := run requests db) in *.
  destruct (proofs db') as [tp|] eqn:Htp; [| done]. simpl in Hlater.
  unfold post_scores_proof, post_scores_proof_body, record_proof, try_catch,
    mbind, M_bind, mret, M_ret, lift, select_proof.
  rewrite Hparse, Hverify.
  destruct (invalid_proof_data (Some id) parsedScore) eqn:Hvalid.
  - by eexists.
  - rewrite Htp, Hlater. by eexists.
Qed.

(** X8: with both tables in place, the errors a route catches are the one
    of [JSON.parse], the one of the verifier, and the [datatype mismatch]
    of [INSERT INTO scores] for a score that is no 64-bit integer key, all
    in [POST /scores/proof]; the first two come before anything is
    written, the third after the [proofs] row has been inserted, which
    stays. *)
Theorem what_the_routes_catch r db e db' :
  is_Some (scores db) → is_Some (proofs db) →
  handler_body r db = (Throw e, db') →
  ∃ buffer now, r = POST_scores_proof (Some buffer) now ∧
    ((JSON_parse (trim (toString_utf8 buffer)) = Throw e ∧ db' = db) ∨
     (∃ p, JSON_parse (trim (toString_utf8 buffer)) = Ok p ∧
           verify2048Proof p = Throw e ∧ db' = db) ∨
     (∃ p id n tp,
        JSON_parse (trim (toString_utf8 buffer)) = Ok p ∧
        verify2048Proof p = Ok (Some id, n) ∧
        rowid_of n = None ∧ n ≠ NaN ∧
        proofs db = Some tp ∧ tp !! id = None ∧
        e = datatype_mismatch ∧
        db' = with_proofs
                (<[id := {| proof := trim (toString_utf8 buffer);
                            proof_score := n; created_at := now |}]> tp) db)).
Proof.
  intros [ts Hts] [tp Htp] Hthrow. destruct r as [| |file now]; simpl in *.
  - unfold get_scores_body, mbind, M_bind, select_scores_desc in Hthrow.
    by rewrite Hts in Hthrow.
  - unfold get_proofs_body, mbind, M_bind, select_proofs_desc in Hthrow.
    by rewrite Htp in Hthrow.
  - destruct file as [buffer|]; [| done]. exists buffer, now. split; [done |].
    destruct (JSON_parse (trim (toString_utf8 buffer))) as [p|e'] eqn:Hparse.
    + destruct (verify2048Proof p) as [[id n]|e''] eqn:Hverify.
      * destruct (invalid_proof_data id n) eqn:Hvalid.
        { unfold post_scores_proof_body, mbind, M_bind, mret, M_ret, lift
            in Hthrow.
          by rewrite Hparse, Hverify, Hvalid in Hthrow. }
        pose proof Hvalid
          as (i & -> & Hi & Hnan & Hminus)%invalid_proof_data_false.
        rewrite (post_body_valid_run _ _ _ _ _ _ _ _ Hparse Hverify Hi Hnan
                   Hminus Hts Htp) in Hthrow.
        destruct (tp !! i) as [rec|] eqn:Hrow; [done |].
        destruct (rowid_of n) as [k|] eqn:Hk; [done |].
        injection Hthrow as <- <-. right; right.
        exists p, i, n, tp. split_and!; try done.
        unfold written_db, with_proofs. by rewrite Hk, Hts.
      * unfold post_scores_proof_body, mbind, M_bind, mret, M_ret, lift
          in Hthrow.
        rewrite Hparse, Hverify in Hthrow. injection Hthrow as <- <-.
        right; left. by exists p.
    + unfold post_scores_proof_body, mbind, M_bind, mret, M_ret, lift
        in Hthrow.
      rewrite Hparse in Hthrow. injection Hthrow as <- <-. by left.
Qed.

(** X16: a score that is no 64-bit integer key is stored but not counted.
    With both tables in place, a submission with a new non-empty
    identifier and a score the test lets through but SQLite refuses as a
    key (a value with a fractional part, an infinity, an integer outside
    the range) is answered 500; its [proofs] row stays and [scores] is as
    it was. *)
Theorem unkeyable_score_stored_not_counted buffer now db p id n ts tp :
  JSON_parse (trim (toString_utf8 buffer)) = Ok p →
  verify2048Proof p = Ok (Some id, n) →
  id ≠ EmptyString → n ≠ NaN → rowid_of n = None →
  scores db = Some ts → proofs db = Some tp →
  tp !! id = None →
  post_scores_proof (Some buffer) now db
  = ({| status := 500; body := ErrorJson "Failed to process proof" |},
     {| scores := Some ts;
        proofs := Some (<[id := {| proof := trim (toString_utf8 buffer);
                                   proof_score := n;
                                   created_at := now |}]> tp) |}).
Proof.
  intros Hparse Hverify Hid Hnan Hk Hts Htp Hfresh.
  assert (n ≠ Num (-1)) as Hminus.
  { intros ->. by rewrite rowid_of_Num in Hk. }
  rewrite (post_valid_run _ _ _ _ _ _ _ _ Hparse Hverify Hid Hnan Hminus Hts Htp).
  rewrite Hfresh. unfold written_db. by rewrite Hk.
Qed.

End Submissions.

(** *** What requests do to the tables over time *)

Lemma total_count_upsert (ts : gmap Z Z) s :
  total_count (<[s := default 0 (ts !! s) + 1]> ts) = total_count ts + 1.
Proof.
  unfold total_count. destruct (ts !! s) as [c|] eqn:Hrow; simpl.
  - rewrite <- (insert_delete_id ts s c Hrow) at 2.
    rewrite <- insert_delete_eq.
    rewrite !map_fold_insert_L; first [apply lookup_delete_eq | intros; lia].
  - rewrite map_fold_insert_L; [lia | intros; lia | done].
Qed.

Lemma proofs_on_leaderboard_insert id rec (tp : gmap string ProofRecord) :
  tp !! id = None →
  proofs_on_leaderboard (<[id := rec]> tp)
  = proofs_on_leaderboard tp
    + (match rowid_of (proof_score rec) with Some _ => 1 | None => 0 end).
Proof.
  intros Hfresh. unfold proofs_on_leaderboard.
  destruct (rowid_of (proof_score rec)) as [k|] eqn:Hk.
  - rewrite map_filter_insert_True by (simpl; by rewrite Hk).
    rewrite map_size_insert_None; [lia |].
    by rewrite map_lookup_filter_None; left.
  - rewrite map_filter_insert_False
      by (simpl; rewrite Hk; by intros [? ?]).
    rewrite delete_id by done. lia.
Qed.

Lemma seed_table_keys :
  Forall (λ item, is_Some (seed_table !! score item)) initialScores.
Proof. compute_done. Qed.

Section Histories.
Context `{Externals}.

Lemma reachable_tables db :
  reachable db → is_Some (scores db) ∧ is_Some (proofs db).
Proof.
  intros (ts & tp & -> & -> & _)%reachable_tallied. by split.
Qed.

(** Induction over the reachable states, one stored submission at a
    time: the other requests change nothing. *)
Lemma reachable_written_ind (P : Database → Prop) :
  P started →
  (∀ db id content n now ts tp,
     reachable db → P db →
     scores db = Some ts → proofs db = Some tp →
     id ≠ EmptyString → n ≠ NaN → n ≠ Num (-1) → tp !! id = None →
     P (written_db id content n now ts tp)) →
  ∀ db, reachable db → P db.
Proof.
  intros Hstart Hstep db Hreach.
  induction Hreach as [db Hinit | db r Hreach IH].
  - unfold started in Hstart. by rewrite Hinit in Hstart.
  - destruct (reachable_tables db Hreach) as [Hts Htp].
    destruct (handle_cases r db Hts Htp)
      as [-> | (buffer & now & id & n & ts & tp & _ & ? & ? & ? & ? & ? & ? & ->)];
      [done |].
    by apply (Hstep db).
Qed.

Lemma handle_scores_row r db S c :
  rows (scores db) !! S = Some c →
  rows (scores (handle r db).2) !! S = Some c ∨
  rows (scores (handle r db).2) !! S = Some (c + 1).
Proof.
  intros Hrow. destruct r as [| |file now]; simpl.
  - left. by rewrite get_scores_db.
  - left. by rewrite get_proofs_db.
  - destruct (post_scores_rows file now db) as [->|[s ->]]; [by left |].
    destruct (decide (s = S)) as [->|Hother].
    + right. by rewrite lookup_insert_eq, Hrow.
    + left. by rewrite lookup_insert_ne.
Qed.

(** X9: no operation of the service (start-up or a request) deletes a row
    of [scores] or lowers a count: a row with count [c] is afterwards
    there with count [c] or [c + 1]. *)
Theorem scores_rows_only_grow op db S c :
  rows (scores db) !! S = Some c →
  rows (scores (perform op db)) !! S = Some c ∨
  rows (scores (perform op db)) !! S = Some (c + 1).
Proof.
  intros Hrow. destruct op as [|r]; cbn [perform].
  - left. rewrite initDb_run. cbn [snd scores rows default].
    rewrite bool_decide_eq_false_2; [done |].
    apply map_size_non_empty_iff. intros Hempty.
    by rewrite Hempty, lookup_empty in Hrow.
  - by apply handle_scores_row.
Qed.

(** X10: the seventeen seeded scores stay on the leaderboard: in every
    reachable state each score of [initialScores] has a row in [scores]. *)
Theorem seeded_scores_stay db item :
  reachable db →
  item ∈ initialScores →
  is_Some (rows (scores db) !! score item).
Proof.
  intros Hreach Hin. induction Hreach as [db Hinit | db r Hreach IH].
  - pose proof (initDb_run new_Database) as Hrun. rewrite Hinit in Hrun.
    injection Hrun as ->. cbn [scores rows default].
    pose proof seed_table_keys as Hkeys. rewrite Forall_forall in Hkeys.
    by apply Hkeys.
  - destruct IH as [c Hrow].
    destruct (handle_scores_row r db _ c Hrow) as [->| ->]; by eexists.
Qed.

(** X11: what is stored has passed the test of the route: in every
    reachable state no [proofs] row has an empty identifier, the score -1
    or a score that is not a number. *)
Theorem stored_proofs_are_valid db id rec :
  reachable db →
  rows (proofs db) !! id = Some rec →
  id ≠ EmptyString ∧ proof_score rec ≠ -1 ∧ proof_score rec ≠ NaN.
Proof.
  intros Hreach. revert id rec. revert db Hreach.
  apply (reachable_written_ind
           (λ db, ∀ id rec, rows (proofs db) !! id = Some rec →
                            id ≠ EmptyString ∧ proof_score rec ≠ -1 ∧
                            proof_score rec ≠ NaN)).
  - intros id rec Hrow. unfold started in Hrow.
    by rewrite initDb_run in Hrow.
  - intros db id' content n now ts tp _ IH Hts Htp Hid Hnan Hminus Hfresh
      id rec Hrow.
    unfold written_db, rows in Hrow. simpl in Hrow.
    rewrite Htp in IH. apply lookup_insert_Some in Hrow
      as [[<- <-]|[_ Hrow]]; [done |].
    by apply IH.
Qed.

(** X12: every stored proof with a score SQLite takes as a key is on the
    leaderboard: in every reachable state, when the score of a [proofs]
    row is a rowid [S], [S] has a row in [scores] with a count of at
    least 1. *)
Theorem proof_score_has_row db id rec S :
  reachable db →
  rows (proofs db) !! id = Some rec →
  rowid_of (proof_score rec) = Some S →
  ∃ c, rows (scores db) !! S = Some c ∧ 1 ≤ c.
Proof.
  intros (ts & tp & Hts & Htp & _ & Hcount)%reachable_tallied Hrow
    [Hscore HS]%rowid_of_Some.
  rewrite Hts. rewrite Htp in Hrow. unfold rows in *. simpl in Hrow |- *.
  specialize (Hcount S HS).
  assert (1 ≤ proofs_with_score S tp) as Hone.
  { unfold proofs_with_score.
    assert (size (filter (λ kv : string * ProofRecord,
                            proof_score kv.2 = Num S) tp) ≠ 0%nat);
      [| lia].
    apply map_size_non_empty_iff. intros Hempty.
    by apply (map_filter_empty_not_lookup _ _ id rec) in Hempty. }
  destruct (ts !! S) as [c|]; simpl in Hcount; [| lia].
  exists c. split; [done | lia].
Qed.

(** X13: in every reachable state the counts of [scores] add up to the
    number of rows of [proofs] whose score SQLite takes as a key. *)
Theorem counts_add_up_to_proofs db :
  reachable db →
  total_count (rows (scores db)) = proofs_on_leaderboard (rows (proofs db)).
Proof.
  revert db.
  apply (reachable_written_ind
           (λ db, total_count (rows (scores db))
                  = proofs_on_leaderboard (rows (proofs db)))).
  - unfold started. rewrite initDb_run. by vm_compute.
  - intros db id' content n now ts tp _ IH Hts Htp Hid Hnan Hminus Hfresh.
    rewrite Hts, Htp in IH. unfold written_db, rows in *. simpl in IH |- *.
    rewrite proofs_on_leaderboard_insert by done. simpl.
    destruct (rowid_of n) as [k|]; [| lia].
    rewrite total_count_upsert. lia.
Qed.

End Histories.

(** *** What the client sees *)

Lemma get_scores_run db t :
  scores db = Some t →
  get_scores db
  = (res_json (ScoresJson (merge_sort score_desc (score_row <$> map_to_list t))), db).
Proof.
  intros Ht. unfold get_scores, get_scores_body, try_catch, mbind, M_bind,
    select_scores_desc. by rewrite Ht.
Qed.

Lemma get_proofs_run db t :
  proofs db = Some t →
  get_proofs db
  = (res_json (ProofsJson (merge_sort created_at_desc (proof_row <$> map_to_list t))), db).
Proof.
  intros Ht. unfold get_proofs, get_proofs_body, try_catch, mbind, M_bind,
    select_proofs_desc. by rewrite Ht.
Qed.

Section Client.
Context `{Externals}.

(** X14: an accepted submission is visible at once: [GET /scores] then
    lists the score with its former count, or 0, plus 1, and [GET /proofs]
    lists the identifier with the trimmed upload, the score and the time
    of the submission. *)
Theorem accepted_proof_is_listed buffer now db p id s resp db' :
  JSON_parse (trim (toString_utf8 buffer)) = Ok p →
  verify2048Proof p = Ok (id, Num s) →
  post_scores_proof (Some buffer) now db = (resp, db') →
  status resp = 201 →
  ∃ i ls lp,
    id = Some i ∧
    get_scores db' = ({| status := 200; body := ScoresJson ls |}, db') ∧
    {| score := s; count := default 0 (rows (scores db) !! s) + 1 |} ∈ ls ∧
    get_proofs db' = ({| status := 200; body := ProofsJson lp |}, db') ∧
    {| proofId := i;
       record := {| proof := trim (toString_utf8 buffer);
                    proof_score := s; created_at := now |} |} ∈ lp.
Proof.
  intros Hparse Hverify Hrun Hok.
  destruct (post_201_valid _ _ _ _ _ Hrun Hok)
    as (buffer' & p' & i & s' & ts & tp & [= <-] & Hparse' & Hverify'
        & _ & _ & _ & Hts & _ & _ & _ & ->).
  rewrite Hparse in Hparse'. injection Hparse' as <-.
  rewrite Hverify in Hverify'. injection Hverify' as -> <-.
  rewrite Hts. eexists i, _, _. split; [done |].
  split; [by apply get_scores_run |]. split.
  - rewrite merge_sort_Permutation. apply elem_of_score_rows.
    apply lookup_insert_eq.
  - split; [by apply get_proofs_run |].
    rewrite merge_sort_Permutation. apply elem_of_proof_rows.
    apply lookup_insert_eq.
Qed.

(** X15: the answers of the route handlers. Whenever the handler of a GET
    route runs it answers 200 or 500, and the handler of the POST route
    201, 400 or 500, whatever the request it is given and the database;
    the body is an error object exactly when the status is 400 or 500. *)
Theorem answer_statuses r db :
  let resp := (handle r db).1 in
  match r with
  | GET_scores | GET_proofs => status resp = 200 ∨ status resp = 500
  | POST_scores_proof _ _ =>
      status resp = 201 ∨ status resp = 400 ∨ status resp = 500
  end ∧
  ((∃ message, body resp = ErrorJson message) ↔
   status resp = 400 ∨ status resp = 500).
Proof.
  destruct r as [| |file now]; simpl.
  - unfold get_scores, get_scores_body, try_catch, mbind, M_bind, mret, M_ret,
      select_scores_desc. destruct (scores db); simpl.
    + split; [by left |]. split; [by intros [? ?] | by intros [?|?]].
    + split; [by right |]. split; [by right | by eexists].
  - unfold get_proofs, get_proofs_body, try_catch, mbind, M_bind, mret, M_ret,
      select_proofs_desc. destruct (proofs db); simpl.
    + split; [by left |]. split; [by intros [? ?] | by intros [?|?]].
    + split; [by right |]. split; [by right | by eexists].
  - unfold post_scores_proof, try_catch.
    destruct (post_scores_proof_body file now db) as [[resp|e] db'] eqn:Hbody;
      simpl.
    + unfold post_scores_proof_body, record_proof, mbind, M_bind, mret, M_ret,
        lift in Hbody.
      repeat case_match; simplify_eq/=.
      all: split; [auto |].
      all: split; [intros [? ?]; simplify_eq; auto | intros [?|?]; by eauto].
    + split; [auto |]. split; [auto | by eexists].
Qed.

End Client.

(** * The properties on the sample environment *)

Lemma count_is_number_of_proofs_witness :
  ∃ ts tp, scores after_first = Some ts ∧ proofs after_first = Some tp ∧
    ∀ S c, ts !! S = Some c → c = proofs_with_score S tp.
Proof.
  apply (count_is_number_of_proofs (H := sample_externals)).
  unfold after_first. apply reachable_handle, reachable_init.
  vm_compute. reflexivity.
Defined.

Lemma duplicate_proof_rejected_witness :
  ∃ resp,
    post_scores_proof (H := sample_externals) (Some "replay") 8 after_first
    = (resp, after_first) ∧
    status resp = 400 ∧
    (("id-1" ≠ EmptyString ∧ Num 2048 ≠ Num (-1) ∧ Num 2048 ≠ NaN) →
       body resp = ErrorJson "Proof already submitted") ∧
    (("id-1" = EmptyString ∨ Num 2048 = Num (-1) ∨ Num 2048 = NaN) →
       body resp = ErrorJson "Invalid proof data").
Proof.
  apply (duplicate_proof_rejected (H := sample_externals)
           "replay" 8 after_first "replay" "id-1" (Num 2048)
           {[ "id-1" := {| proof := "first"; proof_score := 2048; created_at := 7 |} ]}
           {| proof := "first"; proof_score := 2048; created_at := 7 |}).
  - reflexivity.
  - reflexivity.
  - vm_compute. reflexivity.
  - vm_compute. reflexivity.
Defined.

(** C2, as the specification words it, fails on a replayed identifier
    that comes with the score -1: the identifier "id-1" is a key of
    [proofs], the submission is refused, but as 'Invalid proof data'. *)
Lemma duplicate_with_invalid_score_counterexample :
  verify2048Proof (Externals := sample_externals) "forged"
    = Ok (Some "id-1", Num (-1)) ∧
  rows (proofs after_first) !! "id-1"
    = Some {| proof := "first"; proof_score := 2048; created_at := 7 |} ∧
  post_scores_proof (H := sample_externals) (Some "forged") 8 after_first
    = ({| status := 400; body := ErrorJson "Invalid proof data" |}, after_first) ∧
  ErrorJson "Invalid proof data" ≠ ErrorJson "Proof already submitted".
Proof.
  split; [reflexivity |]. split; [vm_compute; reflexivity |].
  split; [vm_compute; reflexivity | discriminate].
Qed.

Lemma invalid_verifier_answer_rejected_witness :
  post_scores_proof (H := sample_externals) (Some "garbled") 8 started
  = ({| status := 400; body := ErrorJson "Invalid proof data" |}, started).
Proof.
  apply (invalid_verifier_answer_rejected (H := sample_externals)
           "garbled" 8 started "garbled" (Some "id-9") NaN).
  - reflexivity.
  - reflexivity.
  - right. right. right. reflexivity.
Defined.

Lemma accepted_proof_counts_once_witness :
  (status (post_scores_proof (H := sample_externals)
             (Some "second") 9 after_first).1 = 201 ↔
     ∃ i ts tp, Some "id-2" = Some i ∧ i ≠ EmptyString ∧ 3 ≠ -1 ∧
       sqlite_integer 3 ∧
       scores after_first = Some ts ∧ proofs after_first = Some tp ∧
       tp !! i = None) ∧
  (status (post_scores_proof (H := sample_externals)
             (Some "second") 9 after_first).1 = 201 →
     ∃ ts ts', scores after_first = Some ts ∧
       scores (post_scores_proof (H := sample_externals)
                 (Some "second") 9 after_first).2 = Some ts' ∧
       (∀ S', S' ≠ 3 → ts' !! S' = ts !! S') ∧
       (∀ c, ts !! 3 = Some c → ts' !! 3 = Some (c + 1)) ∧
       (ts !! 3 = None → ts' !! 3 = Some 1)).
Proof.
  apply (accepted_proof_counts_once (H := sample_externals)
           "second" 9 after_first "second" (Some "id-2") 3).
  - reflexivity.
  - reflexivity.
Defined.

(** The two halves of C4 on the sample: the seeded score 2048 goes from
    count 0 to 1, and the score 3, which has no row, gets the row (3, 1). *)
Example accepted_seeded_score :
  rows (scores started) !! 2048 = Some 0 ∧
  post_scores_proof (H := sample_externals) (Some "first") 7 started
  = ({| status := 201;
        body := MessageJson "Proof verified and score updated" 2048 |},
     after_first) ∧
  rows (scores after_first) !! 2048 = Some 1.
Proof. by vm_compute. Qed.

Example accepted_new_score :
  rows (scores after_first) !! 3 = None ∧
  status (post_scores_proof (H := sample_externals)
            (Some "second") 9 after_first).1 = 201 ∧
  rows (scores (post_scores_proof (H := sample_externals)
                  (Some "second") 9 after_first).2) !! 3 = Some 1.
Proof. by vm_compute. Qed.

Lemma initDb_seeds_ladder_witness :
  ∃ db', initDb new_Database = (Ok (), db') ∧
    scores db' = Some (list_to_map ((λ s, (s, 0)) <$>
      [131072; 65536; 32768; 16384; 8192; 4096; 2048; 1024; 512;
       256; 128; 64; 32; 16; 8; 4; 2])) ∧
    rows (proofs db') = rows (proofs new_Database).
Proof. apply (initDb_seeds_ladder new_Database). reflexivity. Defined.

Lemma get_scores_sorted_rows_witness :
  ∃ l, get_scores after_first = ({| status := 200; body := ScoresJson l |}, after_first) ∧
       l ≡ₚ score_row <$> map_to_list (<[2048 := 1]> seed_table) ∧
       (∀ r, r ∈ l ↔ <[2048 := 1]> seed_table !! score r = Some (count r)) ∧
       StronglySorted score_strictly_desc l.
Proof.
  apply (get_scores_sorted_rows after_first (<[2048 := 1]> seed_table)).
  vm_compute. reflexivity.
Defined.

Lemma catch_all_answers_500_witness :
  handle (H := sample_externals) (POST_scores_proof (Some "") 8) started
  = ({| status := 500;
        body := ErrorJson (failure_message (POST_scores_proof (Some "") 8)) |},
     started).
Proof.
  apply (catch_all_answers_500 (H := sample_externals)
           (POST_scores_proof (Some "") 8) started SyntaxError started).
  reflexivity.
Defined.

Lemma rejection_writes_nothing_witness :
  (post_scores_proof (H := sample_externals) (Some "replay") 8 after_first).2
  = after_first.
Proof.
  apply (rejection_writes_nothing (H := sample_externals) (Some "replay") 8
           after_first
           {| status := 400; body := ErrorJson "Proof already submitted" |}).
  - vm_compute. reflexivity.
  - reflexivity.
Defined.

Lemma initDb_keeps_scores_witness :
  ∃ db', initDb after_first = (Ok (), db') ∧
    scores db' = Some (<[2048 := 1]> seed_table) ∧
    rows (proofs db') = rows (proofs after_first).
Proof.
  apply (initDb_keeps_scores after_first (<[2048 := 1]> seed_table)).
  - vm_compute. reflexivity.
  - intros Hempty. apply (f_equal (λ t : gmap Z Z, t !! 2048)) in Hempty.
    vm_compute in Hempty. discriminate Hempty.
Defined.

(** The catch-all of each route is live: a GET before the tables exist,
    an upload that is not JSON, an upload the verifier rejects. *)
Example get_scores_no_table :
  get_scores new_Database
  = ({| status := 500; body := ErrorJson "Failed to fetch scores" |}, new_Database).
Proof. reflexivity. Qed.

Example get_proofs_no_table :
  get_proofs new_Database
  = ({| status := 500; body := ErrorJson "Failed to fetch proofs" |}, new_Database).
Proof. reflexivity. Qed.

Example post_verifier_rejects :
  post_scores_proof (H := sample_externals) (Some "noise") 8 started
  = ({| status := 500; body := ErrorJson "Failed to process proof" |}, started).
Proof. vm_compute. reflexivity. Qed.

(** Without the [scores] table a submission is stored and then fails:
    the route opens no transaction, so the new [proofs] row stays. *)
Example post_partial_write :
  post_scores_proof (H := sample_externals) (Some "first") 7
    {| scores := None; proofs := Some ∅ |}
  = ({| status := 500; body := ErrorJson "Failed to process proof" |},
     {| scores := None;
        proofs := Some {[ "id-1" := {| proof := "first"; proof_score := 2048;
                                       created_at := 7 |} ]} |}).
Proof. vm_compute. reflexivity. Qed.

(** A score the test lets through but SQLite refuses as a key: the
    [proofs] row is stored, [INSERT INTO scores] throws, the answer is 500
    and no count is raised. *)
Example post_huge_score :
  post_scores_proof (H := sample_externals) (Some "huge") 8 after_first
  = ({| status := 500; body := ErrorJson "Failed to process proof" |},
     after_huge) ∧
  rows (proofs after_huge) !! "id-3"
  = Some {| proof := "huge"; proof_score := 10 ^ 19; created_at := 8 |} ∧
  scores after_huge = scores after_first.
Proof. by vm_compute. Qed.

(** * The further properties on the sample environment *)

Lemma reachable_after_first : reachable (H := sample_externals) after_first.
Proof.
  unfold after_first. apply reachable_handle, reachable_init.
  vm_compute. reflexivity.
Qed.

Lemma reachable_after_huge : reachable (H := sample_externals) after_huge.
Proof. unfold after_huge. apply reachable_handle, reachable_after_first. Qed.


Lemma get_proofs_sorted_rows_witness :
  ∃ l, get_proofs after_first
       = ({| status := 200; body := ProofsJson l |}, after_first) ∧
       l ≡ₚ proof_row <$> map_to_list
              ({[ "id-1" := {| proof := "first"; proof_score := 2048;
                               created_at := 7 |} ]} : gmap string ProofRecord) ∧
       (∀ r, r ∈ l ↔
             ({[ "id-1" := {| proof := "first"; proof_score := 2048;
                              created_at := 7 |} ]} : gmap string ProofRecord)
               !! proofId r = Some (record r)) ∧
       NoDup (proofId <$> l) ∧
       StronglySorted created_at_desc l.
Proof.
  apply (get_proofs_sorted_rows after_first
           {[ "id-1" := {| proof := "first"; proof_score := 2048;
                           created_at := 7 |} ]}).
  vm_compute. reflexivity.
Defined.

Lemma fresh_valid_proof_accepted_witness :
  post_scores_proof (H := sample_externals) (Some "second") 9 after_first
  = ({| status := 201;
        body := MessageJson "Proof verified and score updated" 3 |},
     {| scores := Some (<[3 := default 0 (<[2048 := 1]> seed_table !! 3) + 1]>
                          (<[2048 := 1]> seed_table));
        proofs := Some (<["id-2" := {| proof := "second"; proof_score := 3;
                                       created_at := 9 |}]>
                          {[ "id-1" := {| proof := "first"; proof_score := 2048;
                                          created_at := 7 |} ]}) |}).
Proof.
  apply (fresh_valid_proof_accepted (H := sample_externals)
           "second" 9 after_first "second" "id-2" 3).
  - reflexivity.
  - reflexivity.
  - discriminate.
  - lia.
  - split; reflexivity.
  - vm_compute. reflexivity.
  - vm_compute. reflexivity.
  - vm_compute. reflexivity.
Defined.

Lemma accepted_only_if_verified_witness :
  ∃ buffer p id s,
    Some "first" = Some buffer ∧
    JSON_parse (Externals := sample_externals)
      (trim (Externals := sample_externals)
         (toString_utf8 (Externals := sample_externals) buffer)) = Ok p ∧
    verify2048Proof (Externals := sample_externals) p = Ok (Some id, Num s) ∧
    id ≠ EmptyString ∧ s ≠ -1 ∧ sqlite_integer s ∧
    rows (proofs started) !! id = None ∧
    body {| status := 201;
            body := MessageJson "Proof verified and score updated" 2048 |}
    = MessageJson "Proof verified and score updated" s.
Proof.
  apply (accepted_only_if_verified (H := sample_externals)
           (Some "first") 7 started _ after_first).
  - vm_compute. reflexivity.
  - reflexivity.
Defined.

Lemma identifier_never_accepted_again_witness :
  ∃ resp,
    post_scores_proof (H := sample_externals) (Some "replay") 10
      (run (H := sample_externals)
         [GET_scores; POST_scores_proof (Some "second") 9] after_first)
    = (resp, run (H := sample_externals)
               [GET_scores; POST_scores_proof (Some "second") 9] after_first) ∧
    status resp = 400 ∧
    rows (proofs (run (H := sample_externals)
                    [GET_scores; POST_scores_proof (Some "second") 9]
                    after_first)) !! "id-1"
    = Some {| proof := "first"; proof_score := 2048; created_at := 7 |}.
Proof.
  apply (identifier_never_accepted_again (H := sample_externals)
           [GET_scores; POST_scores_proof (Some "second") 9]
           "replay" 10 after_first "id-1" _ "replay" (Num 2048)).
  - vm_compute. reflexivity.
  - reflexivity.
  - reflexivity.
Defined.

Lemma what_the_routes_catch_witness :
  ∃ buffer now,
    POST_scores_proof (Some "huge") 8 = POST_scores_proof (Some buffer) now ∧
    ((JSON_parse (Externals := sample_externals)
        (trim (Externals := sample_externals)
           (toString_utf8 (Externals := sample_externals) buffer))
      = Throw datatype_mismatch ∧ after_huge = after_first) ∨
     (∃ p, JSON_parse (Externals := sample_externals)
             (trim (Externals := sample_externals)
                (toString_utf8 (Externals := sample_externals) buffer)) = Ok p ∧
           verify2048Proof (Externals := sample_externals) p
           = Throw datatype_mismatch ∧ after_huge = after_first) ∨
     (∃ p id n tp,
        JSON_parse (Externals := sample_externals)
          (trim (Externals := sample_externals)
             (toString_utf8 (Externals := sample_externals) buffer)) = Ok p ∧
        verify2048Proof (Externals := sample_externals) p = Ok (Some id, n) ∧
        rowid_of n = None ∧ n ≠ NaN ∧
        proofs after_first = Some tp ∧ tp !! id = None ∧
        datatype_mismatch = datatype_mismatch ∧
        after_huge
        = with_proofs
            (<[id := {| proof := trim (Externals := sample_externals)
                                   (toString_utf8 (Externals := sample_externals)
                                      buffer);
                        proof_score := n; created_at := now |}]> tp)
            after_first)).
Proof.
  apply (what_the_routes_catch (H := sample_externals)
           (POST_scores_proof (Some "huge") 8) after_first
           datatype_mismatch after_huge).
  - vm_compute. eexists. reflexivity.
  - vm_compute. eexists. reflexivity.
  - vm_compute. reflexivity.
Defined.

Lemma scores_rows_only_grow_witness :
  rows (scores (perform (H := sample_externals)
                  (Serve (POST_scores_proof (Some "first") 7)) started)) !! 2048
  = Some 0 ∨
  rows (scores (perform (H := sample_externals)
                  (Serve (POST_scores_proof (Some "first") 7)) started)) !! 2048
  = Some (0 + 1).
Proof.
  apply (scores_rows_only_grow (H := sample_externals)
           (Serve (POST_scores_proof (Some "first") 7)) started 2048 0).
  vm_compute. reflexivity.
Defined.

Lemma seeded_scores_stay_witness :
  is_Some (rows (scores after_first) !! score {| score := 2048; count := 0 |}).
Proof.
  apply (seeded_scores_stay (H := sample_externals) after_first
           {| score := 2048; count := 0 |} reachable_after_first).
  apply list_elem_of_In. simpl. tauto.
Defined.

Lemma stored_proofs_are_valid_witness :
  "id-1" ≠ EmptyString ∧
  proof_score {| proof := "first"; proof_score := 2048; created_at := 7 |} ≠ -1 ∧
  proof_score {| proof := "first"; proof_score := 2048; created_at := 7 |} ≠ NaN.
Proof.
  apply (stored_proofs_are_valid (H := sample_externals) after_first "id-1"
           {| proof := "first"; proof_score := 2048; created_at := 7 |}
           reachable_after_first).
  vm_compute. reflexivity.
Defined.

Lemma proof_score_has_row_witness :
  ∃ c, rows (scores after_huge) !! 2048 = Some c ∧ 1 ≤ c.
Proof.
  apply (proof_score_has_row (H := sample_externals) after_huge "id-1"
           {| proof := "first"; proof_score := 2048; created_at := 7 |} 2048
           reachable_after_huge).
  - vm_compute. reflexivity.
  - vm_compute. reflexivity.
Defined.

Lemma counts_add_up_to_proofs_witness :
  total_count (rows (scores after_huge))
  = proofs_on_leaderboard (rows (proofs after_huge)).
Proof.
  apply (counts_add_up_to_proofs (H := sample_externals) after_huge
           reachable_after_huge).
Defined.

(** On the sample after the upload ["huge"]: two stored proofs, one of
    them counted. *)
Example counted_and_stored :
  size (rows (proofs after_huge)) = 2%nat ∧
  proofs_on_leaderboard (rows (proofs after_huge)) = 1 ∧
  total_count (rows (scores after_huge)) = 1.
Proof. by vm_compute. Qed.

Lemma accepted_proof_is_listed_witness :
  ∃ i ls lp,
    Some "id-1" = Some i ∧
    get_scores after_first
    = ({| status := 200; body := ScoresJson ls |}, after_first) ∧
    {| score := 2048; count := default 0 (rows (scores started) !! 2048) + 1 |} ∈ ls ∧
    get_proofs after_first
    = ({| status := 200; body := ProofsJson lp |}, after_first) ∧
    {| proofId := i;
       record := {| proof := "first"; proof_score := 2048; created_at := 7 |} |} ∈ lp.
Proof.
  apply (accepted_proof_is_listed (H := sample_externals)
           "first" 7 started "first" (Some "id-1") 2048
           {| status := 201;
              body := MessageJson "Proof verified and score updated" 2048 |}
           after_first).
  - reflexivity.
  - reflexivity.
  - vm_compute. reflexivity.
  - reflexivity.
Defined.

Lemma unkeyable_score_stored_not_counted_witness :
  post_scores_proof (H := sample_externals) (Some "half") 9 after_first
  = ({| status := 500; body := ErrorJson "Failed to process proof" |},
     {| scores := Some (<[2048 := 1]> seed_table);
        proofs := Some (<["id-4" := {| proof := "half";
                                       proof_score := NonInteger (Fraction 2 1);
                                       created_at := 9 |}]>
                          {[ "id-1" := {| proof := "first"; proof_score := 2048;
                                          created_at := 7 |} ]}) |}).
Proof.
  apply (unkeyable_score_stored_not_counted (H := sample_externals)
           "half" 9 after_first "half" "id-4" (NonInteger (Fraction 2 1))).
  - reflexivity.
  - reflexivity.
  - discriminate.
  - discriminate.
  - reflexivity.
  - vm_compute. reflexivity.
  - vm_compute. reflexivity.
  - vm_compute. reflexivity.
Defined.
